(** * A personal finance ledger: the store behind [server.ts] and the
      aggregations of [App.tsx]

    The server keeps one SQLite table, [transactions], and exposes four
    routes on it; the client derives a per-category and a per-day view from
    the listing it fetches.  This file embeds the table, the four route
    handlers and the two client-side folds, and settles the properties the
    specification states about them.

    Conventions of the embedding.
    - Amounts are the [REAL] column of the table and JavaScript numbers in
      the client: binary64 in the code, values of [Q] here.  A sum is
      stated in the order in which the code adds its terms
      ([sum_in_order]), and for tables whose amounts stay within the range
      of the doubles ([amounts_stay_finite]); nothing is stated that needs
      the terms added in another order, or a sum free of rounding.
    - Text is a byte string; SQLite's [BINARY] collation is [memcmp], which
      on [string] is the lexicographic order of [String_as_OT.compare].
    - A request body is modelled field by field, each field being absent,
      [null], or a value of the JSON type the client sends for it (a number
      for [amount], a string for the others).  Booleans, arrays, objects and
      values of the other scalar type, whose fate depends on the driver's
      binding rules and on column affinity, are not covered. *)

From Stdlib Require Import ZArith QArith Qabs List String Ascii Bool Lia.
From Stdlib Require Import Permutation Sorted OrdersEx RelationClasses Setoid.
Import ListNotations.

Local Open Scope Z_scope.

(** ** Values crossing the HTTP boundary *)

(** One destructured property of [req.body]. *)
Inductive Field (A : Type) : Type :=
| Undefined : Field A
| Null : Field A
| Val : A -> Field A.

Arguments Undefined {A}.
Arguments Null {A}.
Arguments Val {A} _.

(** [const { amount, type, category, description, date } = req.body] *)
Record Body : Type := mkBody {
  req_amount : Field Q;
  req_type : Field string;
  req_category : Field string;
  req_description : Field string;
  req_date : Field string
}.

(** JavaScript truthiness, as [!x] tests it: a number is truthy unless it is
    zero, a string unless it is empty; [undefined] and [null] are falsy.
    The result is the value itself when it is truthy. *)
Definition truthy_number (f : Field Q) : option Q :=
  match f with
  | Val x => if Qeq_bool x 0 then None else Some x
  | _ => None
  end.

Definition truthy_string (f : Field string) : option string :=
  match f with
  | Val s => if String.eqb s EmptyString then None else Some s
  | _ => None
  end.

(** The driver binds [undefined] and [null] as SQL [NULL], a string as
    [TEXT]. *)
Definition bind_nullable (f : Field string) : option string :=
  match f with
  | Val s => Some s
  | _ => None
  end.

(** ** The table

    [CREATE TABLE transactions (id INTEGER PRIMARY KEY AUTOINCREMENT,
    amount REAL NOT NULL, type TEXT CHECK(type IN ('income','expense')) NOT
    NULL, category TEXT NOT NULL, description TEXT, date TEXT NOT NULL,
    created_at DATETIME DEFAULT CURRENT_TIMESTAMP)].  A row is also what the
    client's [Transaction] interface describes. *)
Record Transaction : Type := mkTransaction {
  id : Z;
  amount : Q;
  type : string;
  category : string;
  description : option string;
  date : string;
  created_at : string
}.

(** The database file: the rows of [transactions] in rowid order, and the
    counter SQLite keeps in [sqlite_sequence] for an [AUTOINCREMENT] key
    (the largest rowid ever handed out). *)
Record Database : Type := mkDatabase {
  transactions : list Transaction;
  sqlite_sequence : Z
}.

(** [new Database("finance.db")] followed by [CREATE TABLE IF NOT EXISTS]
    on a fresh file. *)
Definition empty_db : Database :=
  {| transactions := []; sqlite_sequence := 0 |}.

(** The largest rowid SQLite can assign, 2^63 - 1. *)
Definition max_rowid : Z := 9223372036854775807.

Definition largest_rowid (rows : list Transaction) : Z :=
  fold_right (fun r m => Z.max (id r) m) 0 rows.

(** [CHECK(type IN ('income', 'expense'))] *)
Definition check_type (t : string) : bool :=
  String.eqb t "income" || String.eqb t "expense".

Inductive SqliteError : Type :=
| SQLITE_CONSTRAINT_CHECK
| SQLITE_FULL.

(** [INSERT INTO transactions (amount, type, category, description, date)
    VALUES (?, ?, ?, ?, ?)].  The key is one more than the larger of the
    [sqlite_sequence] counter and the largest rowid in the table, and the
    insert fails once that is [max_rowid]; [created_at] takes the clock's
    [CURRENT_TIMESTAMP], passed in as [now].  The values arrive from behind
    the handler's guard, so no [NOT NULL] column is given [NULL]; the one
    constraint left to fail is the [CHECK].  A failed statement changes
    nothing. *)
Definition insert (now : string) (a : Q) (t c : string) (descr : option string)
    (d : string) (db : Database) : SqliteError + (Z * Database) :=
  if negb (check_type t) then inl SQLITE_CONSTRAINT_CHECK
  else
    let last := Z.max (sqlite_sequence db) (largest_rowid (transactions db)) in
    if max_rowid <=? last then inl SQLITE_FULL
    else
      let rowid := last + 1 in
      let row := {| id := rowid; amount := a; type := t; category := c;
                    description := descr; date := d; created_at := now |} in
      inr (rowid, {| transactions := transactions db ++ [row];
                     sqlite_sequence := rowid |}).

(** ** [POST /api/transactions] *)

Inductive PostResponse : Type :=
| PostOk (rowid : Z)      (* 200, { id: info.lastInsertRowid } *)
| PostMissingFields       (* 400, "Missing required fields" *)
| PostFailed.             (* 500, "Failed to add transaction" *)

Definition post_transactions (now : string) (body : Body) (db : Database)
  : PostResponse * Database :=
  match truthy_number (req_amount body), truthy_string (req_type body),
        truthy_string (req_category body), truthy_string (req_date body) with
  | Some a, Some t, Some c, Some d =>
      match insert now a t c (bind_nullable (req_description body)) d db with
      | inr (rowid, db') => (PostOk rowid, db')
      | inl _ => (PostFailed, db)
      end
  | _, _, _, _ => (PostMissingFields, db)
  end.

(** ** [GET /api/transactions]

    [SELECT * FROM transactions ORDER BY date DESC, created_at DESC].  Both
    keys are text, compared bytewise. *)
Definition text_compare : string -> string -> comparison := String_as_OT.compare.

(** [comes_first a b]: row [a] may stand before row [b] in the result. *)
Definition comes_first (a b : Transaction) : bool :=
  match text_compare (date a) (date b) with
  | Gt => true
  | Lt => false
  | Eq => match text_compare (created_at a) (created_at b) with
          | Lt => false
          | _ => true
          end
  end.

Section OrderBy.
Context {A : Type} (leb : A -> A -> bool).

Fixpoint insert_sorted (x : A) (l : list A) : list A :=
  match l with
  | [] => [x]
  | y :: l' => if leb y x then y :: insert_sorted x l' else x :: l
  end.

(** The sorter, as a stable insertion sort over the scan order. *)
Definition order_by (l : list A) : list A :=
  fold_left (fun acc x => insert_sorted x acc) l [].
End OrderBy.

(** [holds leb x y]: the sorter leaves [x] before [y]. *)
Definition holds {A : Type} (leb : A -> A -> bool) (x y : A) : Prop :=
  leb x y = true.

(** [stable leb T x y]: the sorter leaves [x] before [y], and where it
    could as well leave [y] before [x], [x] came first in the scan
    ([T x y]). *)
Definition stable {A : Type} (leb : A -> A -> bool) (T : A -> A -> Prop)
    (x y : A) : Prop :=
  leb x y = true /\ (leb y x = true -> T x y).

Definition get_transactions (db : Database) : list Transaction :=
  order_by comes_first (transactions db).

(** ** [GET /api/stats]

    [SELECT SUM(CASE WHEN type = 'income' THEN amount ELSE 0 END) ...,
    SUM(CASE WHEN type = 'expense' THEN amount ELSE 0 END) ... FROM
    transactions].  SQLite's [SUM] counts the non-NULL values it is fed and
    yields [NULL] when it was fed none. *)
Record SumCtx : Type := mkSumCtx { cnt : nat; rSum : Q }.

Definition sumStep (p : SumCtx) (v : option Q) : SumCtx :=
  match v with
  | Some x => {| cnt := S (cnt p); rSum := (rSum p + x)%Q |}
  | None => p
  end.

Definition sumFinalize (p : SumCtx) : option Q :=
  match cnt p with
  | O => None
  | S _ => Some (rSum p)
  end.

Definition SUM (values : list (option Q)) : option Q :=
  sumFinalize (fold_left sumStep values {| cnt := 0; rSum := 0%Q |}).

(** [CASE WHEN type = ty THEN amount ELSE 0 END] on one row. *)
Definition case_amount (ty : string) (r : Transaction) : option Q :=
  if String.eqb (type r) ty then Some (amount r) else Some 0%Q.

(** The JSON object the route sends; [None] is [null]. *)
Record Stats : Type := mkStats {
  total_income : option Q;
  total_expense : option Q
}.

Definition get_stats (db : Database) : Stats :=
  {| total_income := SUM (map (case_amount "income") (transactions db));
     total_expense := SUM (map (case_amount "expense") (transactions db)) |}.

(** ** [DELETE /api/transactions/:id]

    [DELETE FROM transactions WHERE id = ?] with the route parameter, a
    string, bound as text.  Comparing the integer key with a text operand,
    SQLite first reads the text as a number; [integer_of_text] stands for
    that reading ([None] when the text is not a number, or not an integral
    one, so that no key equals it). *)
Inductive DeleteResponse : Type :=
| DeleteOk                (* 200, { success: true } *)
| DeleteFailed.           (* 500, "Failed to delete transaction" *)

(** The statement's effect once the operand has been read: the rows whose
    key equals the operand's integer go, the counter stays.  It reports the
    number of rows removed ([info.changes]) and has no failing case. *)
Definition delete_where_id (operand : option Z) (db : Database)
  : SqliteError + (nat * Database) :=
  let hit (r : Transaction) :=
    match operand with
    | Some n => id r =? n
    | None => false
    end in
  inr (List.length (filter hit (transactions db)),
       {| transactions := filter (fun r => negb (hit r)) (transactions db);
          sqlite_sequence := sqlite_sequence db |}).

Section Delete.
Variable integer_of_text : string -> option Z.

Definition delete_transaction (param : string) (db : Database)
  : DeleteResponse * Database :=
  match delete_where_id (integer_of_text param) db with
  | inr (_, db') => (DeleteOk, db')
  | inl _ => (DeleteFailed, db)
  end.
End Delete.

(** ** The client ([App.tsx])

    Both derived views fold the fetched listing into an object literal
    [{}] used as a map from strings.  Such an object has the properties it
    was given (kept here in insertion order) and, behind them, those of
    [Object.prototype]: reading a key that was never written but names one
    of these finds a function (or, for [__proto__], the prototype object),
    not [undefined]. *)
Definition object_prototype : list string :=
  [ "constructor"; "__defineGetter__"; "__defineSetter__"; "hasOwnProperty";
    "__lookupGetter__"; "__lookupSetter__"; "isPrototypeOf";
    "propertyIsEnumerable"; "toString"; "valueOf"; "__proto__";
    "toLocaleString" ]%string.

Definition inherited (k : string) : bool :=
  existsb (String.eqb k) object_prototype.

Definition JsObject (V : Type) : Type := list (string * V).

Fixpoint own {V : Type} (o : JsObject V) (k : string) : option V :=
  match o with
  | [] => None
  | (k', v) :: o' => if String.eqb k k' then Some v else own o' k
  end.

Inductive Property (V : Type) : Type :=
| Own : V -> Property V        (* a property of the object itself *)
| Inherited : Property V       (* found on [Object.prototype] *)
| Missing : Property V.        (* [undefined] *)

Arguments Own {V} _.
Arguments Inherited {V}.
Arguments Missing {V}.

(** [o[k]] *)
Definition get {V : Type} (o : JsObject V) (k : string) : Property V :=
  match own o k with
  | Some v => Own v
  | None => if inherited k then Inherited else Missing
  end.

(** [o[k] = v] for a key the object already has, or a fresh one. *)
Fixpoint put {V : Type} (o : JsObject V) (k : string) (v : V) : JsObject V :=
  match o with
  | [] => [(k, v)]
  | (k', v') :: o' =>
      if String.eqb k k' then (k', v) :: o' else (k', v') :: put o' k v
  end.

(** What [+] leaves in a category's slot: a number while both operands are
    numbers, a string as soon as the left one is not (its text is not
    needed here). *)
Inductive JsValue : Type :=
| JsNumber (x : Q)
| JsString.

(** [x || 0] on a number. *)
Definition or_zero (x : Q) : Q := if Qeq_bool x 0 then 0%Q else x.

(** [acc[t.category] = (acc[t.category] || 0) + t.amount; return acc].
    Assigning a string to [__proto__] goes to the prototype's setter, which
    ignores it. *)
Definition add_to_category (acc : JsObject JsValue) (t : Transaction)
  : JsObject JsValue :=
  let k := category t in
  match get acc k with
  | Own (JsNumber x) => put acc k (JsNumber (or_zero x + amount t)%Q)
  | Own JsString => put acc k JsString
  | Inherited => if String.eqb k "__proto__" then acc else put acc k JsString
  | Missing => put acc k (JsNumber (0 + amount t)%Q)
  end.

(** [Object.entries(transactions.filter(t => t.type === 'expense')
    .reduce(..., {})).map(([name, value]) => ({ name, value }))].  Entries
    come in insertion order; keys that are array indices, which JavaScript
    lists first, are not moved (nothing below relies on the order). *)
Definition categoryData (txs : list Transaction) : list (string * JsValue) :=
  fold_left add_to_category
    (filter (fun t => String.eqb (type t) "expense") txs) [].

(** [if (!groups[date]) groups[date] = []; groups[date].push(t); return
    groups].  A date naming a property of [Object.prototype] finds that
    property, which has no [push]: the call throws a [TypeError] ([None]). *)
Definition add_to_group (groups : option (JsObject (list Transaction)))
    (t : Transaction) : option (JsObject (list Transaction)) :=
  match groups with
  | None => None
  | Some g =>
      match get g (date t) with
      | Own members => Some (put g (date t) (members ++ [t]))
      | Missing => Some (put g (date t) ([] ++ [t]))
      | Inherited => None
      end
  end.

Definition grouped (txs : list Transaction)
  : option (JsObject (list Transaction)) :=
  fold_left add_to_group txs (Some []).

(** [grouped[date].filter(t => t.type === 'expense').reduce((sum, t) => sum +
    t.amount, 0)], the figure shown beside each day. *)
Definition day_expense (members : list Transaction) : Q :=
  fold_left (fun sum t => (sum + amount t)%Q)
    (filter (fun t => String.eqb (type t) "expense") members) 0%Q.

(** One rendered day: its date, the sum shown in its header, its rows. *)
Record Day : Type := mkDay {
  day_date : string;
  expense_total : Q;
  records : list Transaction
}.

Section DayView.
(** [a.localeCompare(b)], by its sign. *)
Variable localeCompare : string -> string -> comparison.

(** [isValid(parseISO(date))]: whether date-fns reads the string as a
    date.  [format] tests it first and throws a [RangeError] on a date that
    is not valid. *)
Variable isValid : string -> bool.

(** [keys.sort((a, b) => b.localeCompare(a))]: [a] stays before [b] when
    the comparator's result is not positive. *)
Definition by_locale_desc (a b : string) : bool :=
  match localeCompare b a with
  | Gt => false
  | _ => true
  end.

(** [Object.keys(grouped).sort(...).map(date => ...)].  The keys are taken
    in insertion order (array-index keys, which JavaScript lists first, are
    not moved: sorting follows).  Each day's header is
    [format(parseISO(date), 'yyyy年MM月dd日')]: on a key that is no date the
    call throws, and with it the whole rendering ([None], as for the
    [TypeError] of the grouping); the text of the header is presentation
    and left out. *)
Definition daily_breakdown (txs : list Transaction) : option (list Day) :=
  match grouped txs with
  | None => None
  | Some g =>
      let keys := order_by by_locale_desc (map fst g) in
      if forallb isValid keys
      then Some (map (fun d =>
                        let members := match own g d with
                                       | Some m => m
                                       | None => []
                                       end in
                        {| day_date := d; expense_total := day_expense members;
                           records := members |})
                     keys)
      else None
  end.
End DayView.

(** ** Vocabulary of the specification *)

(** The sum of [amount] over a collection of records. *)
Definition sum_amounts (l : list Transaction) : Q :=
  fold_right (fun r s => (amount r + s)%Q) 0%Q l.

(** A sum as the code accumulates it: from 0, one term after the other. *)
Definition sum_in_order (amounts : list Q) : Q := fold_left Qplus amounts 0%Q.

(** The amounts of a table stay within the doubles: the table has 2^48
    rows at most (a database file has fewer bytes) and the absolute values
    of the amounts add up to 2^1023 at most.  Then no amount is infinite,
    and no sum of amounts leaves the range of binary64, whatever the
    order of the terms and the rounding of each step. *)
Definition amounts_stay_finite (db : Database) : Prop :=
  Z.of_nat (List.length (transactions db)) <= 2 ^ 48 /\
  (fold_right (fun r s => Qabs (amount r) + s) 0 (transactions db)
   <= inject_Z (2 ^ 1023))%Q.

Definition has_type (ty : string) (r : Transaction) : bool :=
  String.eqb (type r) ty.

Definition has_category (c : string) (r : Transaction) : bool :=
  String.eqb (category r) c.

Definition has_date (d : string) (r : Transaction) : bool :=
  String.eqb (date r) d.

(** The shape [YYYY-MM-DD]: ten bytes, digits around two hyphens. *)
Definition is_digit (c : ascii) : bool :=
  (48 <=? nat_of_ascii c)%nat && (nat_of_ascii c <=? 57)%nat.

Definition is_hyphen (c : ascii) : bool := Ascii.eqb c "-"%char.

Definition iso_date_shape (s : string) : bool :=
  match list_ascii_of_string s with
  | [y1; y2; y3; y4; h1; m1; m2; h2; d1; d2] =>
      is_digit y1 && is_digit y2 && is_digit y3 && is_digit y4 && is_hyphen h1
      && is_digit m1 && is_digit m2 && is_hyphen h2
      && is_digit d1 && is_digit d2
  | _ => false
  end.

(** A calendar date: the shape above, a month from 01 to 12 and a day that
    the month has (Gregorian leap years). *)
Definition digit_value (c : ascii) : nat := nat_of_ascii c - 48.

Definition days_in_month (y m : nat) : nat :=
  match m with
  | 1 | 3 | 5 | 7 | 8 | 10 | 12 => 31
  | 4 | 6 | 9 | 11 => 30
  | 2 => if ((y mod 4 =? 0) && negb (y mod 100 =? 0) || (y mod 400 =? 0))%nat
         then 29 else 28
  | _ => 0
  end%nat.

Definition valid_calendar_date (s : string) : bool :=
  iso_date_shape s &&
  match list_ascii_of_string s with
  | [y1; y2; y3; y4; _; m1; m2; _; d1; d2] =>
      let y := (1000 * digit_value y1 + 100 * digit_value y2
                + 10 * digit_value y3 + digit_value y4)%nat in
      let m := (10 * digit_value m1 + digit_value m2)%nat in
      let d := (10 * digit_value d1 + digit_value d2)%nat in
      (1 <=? d)%nat && (d <=? days_in_month y m)%nat
  | _ => false
  end.

(** An input the specification calls valid: a positive amount, one of the
    two types, a category, a calendar date; the description is optional. *)
Definition valid_input (body : Body) : Prop :=
  (exists a, req_amount body = Val a /\ (0 < a)%Q) /\
  (req_type body = Val "income"%string \/ req_type body = Val "expense"%string) /\
  (exists c, req_category body = Val c /\ c <> EmptyString) /\
  (exists d, req_date body = Val d /\ valid_calendar_date d = true).

(** A stored record carries the fields of a request. *)
Definition matches_input (body : Body) (r : Transaction) : Prop :=
  req_amount body = Val (amount r) /\
  req_type body = Val (type r) /\
  req_category body = Val (category r) /\
  bind_nullable (req_description body) = description r /\
  req_date body = Val (date r).

(** The states the server can be in: the fresh database, and whatever a
    [POST] or a [DELETE] makes of a state it can be in, at any time, with
    any body, and however the route parameter is read. *)
Inductive reachable : Database -> Prop :=
| reachable_empty : reachable empty_db
| reachable_post (now : string) (body : Body) (db : Database) :
    reachable db -> reachable (snd (post_transactions now body db))
| reachable_delete (read : string -> option Z) (param : string) (db : Database) :
    reachable db -> reachable (snd (delete_transaction read param db)).

(** The states the table can be in: the fresh one, and whatever the two
    statements that write to it make of a state it can be in, with any
    values bound to them.  A request of any form that the handlers turn
    into a statement is covered, as far as a row can hold what it binds. *)
Inductive table_reachable : Database -> Prop :=
| table_fresh : table_reachable empty_db
| table_insert (now : string) (a : Q) (t c : string) (descr : option string)
    (d : string) (db db' : Database) (i : Z) :
    table_reachable db -> insert now a t c descr d db = inr (i, db') ->
    table_reachable db'
| table_delete (operand : option Z) (db db' : Database) (n : nat) :
    table_reachable db -> delete_where_id operand db = inr (n, db') ->
    table_reachable db'.

(** The order of the listing: later date first, and on one date later
    [created_at] first. *)
Definition listed_before (a b : Transaction) : Prop :=
  text_compare (date a) (date b) = Gt \/
  (date a = date b /\ text_compare (created_at a) (created_at b) <> Lt).

(** The same, with what the sorter does with records equal in both keys:
    it leaves them as the table has them, the one entered first (of the
    lower key) first. *)
Definition listed_in_order (a b : Transaction) : Prop :=
  listed_before a b /\
  (date a = date b -> created_at a = created_at b -> id a < id b).

(** The guard of [POST]: [!amount || !type || !category || !date]. *)
Definition missing_required (body : Body) : bool :=
  match truthy_number (req_amount body) with None => true | Some _ => false end
  || match truthy_string (req_type body) with None => true | Some _ => false end
  || match truthy_string (req_category body) with None => true | Some _ => false end
  || match truthy_string (req_date body) with None => true | Some _ => false end.

(** The request names one of the two types. *)
Definition type_allowed (body : Body) : bool :=
  match req_type body with
  | Val t => check_type t
  | _ => false
  end.

(** ** Sample data *)

Definition tx (i : Z) (a : Q) (t c d ts : string) : Transaction :=
  {| id := i; amount := a; type := t; category := c;
     description := Some EmptyString; date := d; created_at := ts |}.

Definition request (a : Q) (t c d : string) : Body :=
  {| req_amount := Val a; req_type := Val t; req_category := Val c;
     req_description := Val EmptyString; req_date := Val d |}.

Definition noon : string := "2024-01-01 12:00:00".

(** A reading of plain decimal numerals, as the client writes a key into
    the route; used to run examples. *)
Fixpoint decimal_digits (s : string) (acc : Z) : option Z :=
  match s with
  | EmptyString => Some acc
  | String c s' =>
      if is_digit c
      then decimal_digits s' (10 * acc + Z.of_nat (digit_value c))
      else None
  end.

Definition decimal_integer (s : string) : option Z :=
  match s with
  | EmptyString => None
  | _ => decimal_digits s 0
  end.

(** ** Invariants of the table *)

(** What the table's constraints leave true of a stored record, whatever
    was bound to the insert: the [CHECK] on [type]. *)
Definition record_ok (r : Transaction) : Prop :=
  type r = "income"%string \/ type r = "expense"%string.

(** Keys grow along the table, lie between 1 and the counter, and the
    counter is a rowid. *)
Definition store_invariant (db : Database) : Prop :=
  StronglySorted Z.lt (map id (transactions db)) /\
  Forall (fun r => 0 < id r <= sqlite_sequence db) (transactions db) /\
  Forall record_ok (transactions db) /\
  0 <= sqlite_sequence db <= max_rowid.

(** One operation's effect: the counter does not go back, and a record of
    the new state is a record of the old one, field for field, or carries a
    key above the old counter. *)
Definition evolves (db db' : Database) : Prop :=
  sqlite_sequence db <= sqlite_sequence db' /\
  forall r, In r (transactions db') ->
            In r (transactions db) \/ sqlite_sequence db < id r.

(** ** The client's folds on keys that [Object.prototype] does not know

    With such keys a read finds the object's own property or [undefined],
    and the two folds are folds over a plain association list. *)

(** The sum of the values of a list of entries; there is none when a value
    is a string. *)
Fixpoint sum_values (entries : list (string * JsValue)) : option Q :=
  match entries with
  | [] => Some 0%Q
  | (_, JsNumber x) :: rest => option_map (Qplus x) (sum_values rest)
  | (_, JsString) :: _ => None
  end.

Definition as_number (entry : string * Q) : string * JsValue :=
  (fst entry, JsNumber (snd entry)).

Definition add_amount (acc : JsObject Q) (t : Transaction) : JsObject Q :=
  match own acc (category t) with
  | Some x => put acc (category t) (or_zero x + amount t)%Q
  | None => put acc (category t) (0 + amount t)%Q
  end.

Definition add_member (g : JsObject (list Transaction)) (t : Transaction)
  : JsObject (list Transaction) :=
  match own g (date t) with
  | Some members => put g (date t) (members ++ [t])
  | None => put g (date t) [t]
  end.

(** What the accumulator holds after the records [l]. *)
Definition tallies (acc : JsObject Q) (l : list Transaction) : Prop :=
  NoDup (map fst acc) /\
  (forall c,
      match own acc c with
      | Some x => (exists r, In r l /\ category r = c) /\
                  (x == sum_amounts (filter (has_category c) l))%Q
      | None => forall r, In r l -> category r <> c
      end).

Definition two_records : Database :=
  {| transactions := [tx 1 50 "expense" "food" "2024-01-01" noon;
                      tx 2 1000 "income" "salary" "2024-01-01" noon];
     sqlite_sequence := 2 |}.

(** The records of one date, if there are any: what the grouping object
    holds under that date. *)
Definition members_of (d : string) (l : list Transaction)
  : option (list Transaction) :=
  match filter (has_date d) l with
  | [] => None
  | t :: m => Some (t :: m)
  end.

Definition groups_of (g : JsObject (list Transaction)) (l : list Transaction)
  : Prop :=
  NoDup (map fst g) /\ forall d, own g d = members_of d l.

Definition two_days : Database :=
  {| transactions := [tx 1 50 "expense" "food" "2024-01-01" noon;
                      tx 2 1000 "income" "salary" "2024-01-02" noon;
                      tx 3 20 "expense" "bus" "2024-01-02" noon];
     sqlite_sequence := 3 |}.

(** ** Proof automation *)

(** Closes the branches of a case analysis on [POST] that end in a refusal. *)
Ltac refused := left; eexists; split; [ reflexivity | discriminate ].

(** ** More of the client ([App.tsx])

    [x || 0] on a field of the fetched stats: [null] is falsy, and so is the
    number zero. *)
Definition stat_or_zero (v : option Q) : Q :=
  match v with
  | Some x => or_zero x
  | None => 0%Q
  end.

(** [(a, b) => b.value - a.value], by whether [a] may stay before [b]: the
    difference is not positive.  With a string on either side the
    difference is [NaN], which the sort reads as 0. *)
Definition by_value_desc (a b : string * JsValue) : bool :=
  match snd a, snd b with
  | JsNumber x, JsNumber y => Qle_bool y x
  | _, _ => true
  end.

(** [[...categoryData].sort((a, b) => b.value - a.value)], the rows of the
    category panel. *)
Definition category_details (entries : list (string * JsValue))
  : list (string * JsValue) :=
  order_by by_value_desc entries.

(** [a] shows a sum at least as large as [b]'s. *)
Definition value_ge (a b : string * JsValue) : Prop :=
  match snd a, snd b with
  | JsNumber x, JsNumber y => (y <= x)%Q
  | _, _ => False
  end.

(** [a]'s date is not earlier than [b]'s. *)
Definition date_ge (a b : Transaction) : Prop :=
  text_compare (date a) (date b) <> Lt.

(** The day that the view makes of the date [d] and the listing [l]. *)
Definition day_of (l : list Transaction) (d : string) : Day :=
  {| day_date := d;
     expense_total := day_expense (filter (has_date d) l);
     records := filter (has_date d) l |}.

(** ** The component's state and its handlers ([App.tsx])

    The state the handlers read and write, one field per [useState] hook
    that they touch.  A handler is modelled up to the point where the
    requests it started have been answered and the state updates it queued
    have been applied; the server is the only other party. *)
From Stdlib Require DecimalString Floats.

(** ['income' | 'expense'], the type of [formData.type]. *)
Inductive TransactionType : Type :=
| Expense
| Income.

Definition type_name (t : TransactionType) : string :=
  match t with
  | Expense => "expense"
  | Income => "income"
  end.

(** [const CATEGORIES = { expense: [...], income: [...] }] *)
Definition CATEGORIES (t : TransactionType) : list string :=
  match t with
  | Expense => [ "餐饮"; "交通"; "购物"; "娱乐"; "居住"; "医疗"; "教育";
                 "其他" ]%string
  | Income => [ "工资"; "奖金"; "投资"; "兼职"; "礼金"; "其他" ]%string
  end.

Record FormData : Type := mkFormData {
  form_amount : string;
  form_type : TransactionType;
  form_category : string;
  form_description : string;
  form_date : string
}.

Record AppState : Type := mkAppState {
  app_transactions : list Transaction;
  app_stats : Stats;
  isAdding : bool;
  deletingTransaction : option Transaction;
  deleteConfirmText : string;
  formData : FormData
}.

(** The form as [useState] creates it and as a successful submit leaves
    it; [today] is [format(new Date(), 'yyyy-MM-dd')]. *)
Definition blank_form (today : string) : FormData :=
  {| form_amount := EmptyString; form_type := Expense;
     form_category := "餐饮"; form_description := EmptyString;
     form_date := today |}.

Definition initial_state (today : string) : AppState :=
  {| app_transactions := [];
     app_stats := {| total_income := Some 0%Q; total_expense := Some 0%Q |};
     isAdding := false; deletingTransaction := None;
     deleteConfirmText := EmptyString; formData := blank_form today |}.

(** [fetchData]: both routes are read and their answers stored. *)
Definition fetchData (db : Database) (st : AppState) : AppState :=
  {| app_transactions := get_transactions db;
     app_stats := get_stats db;
     isAdding := isAdding st;
     deletingTransaction := deletingTransaction st;
     deleteConfirmText := deleteConfirmText st;
     formData := formData st |}.

(** The key as the template literal writes it into the route: a decimal
    numeral. *)
Definition number_to_string (i : Z) : string :=
  DecimalString.NilZero.string_of_int (Z.to_int i).

Section Handlers.
(** [Number(s)] on the text of the amount field; [None] is [NaN]. *)
Variable Number : string -> option Q.
(** SQLite's reading of the route parameter, as for [delete_transaction]. *)
Variable integer_of_text : string -> option Z.

(** The body [handleSubmit] sends: the form, with [amount] replaced by
    its number. *)
Definition submitted_body (form : FormData) (x : Q) : Body :=
  {| req_amount := Val x;
     req_type := Val (type_name (form_type form));
     req_category := Val (form_category form);
     req_description := Val (form_description form);
     req_date := Val (form_date form) |}.

(** [handleSubmit]: nothing is sent when the amount field is empty or not a
    number; an answer that is not [ok] changes nothing in the client; an
    [ok] closes the dialog, resets the form and fetches. *)
Definition handleSubmit (now today : string) (st : AppState) (db : Database)
  : AppState * Database :=
  if String.eqb (form_amount (formData st)) EmptyString then (st, db)
  else
    match Number (form_amount (formData st)) with
    | None => (st, db)
    | Some x =>
        match post_transactions now (submitted_body (formData st) x) db with
        | (PostOk _, db') =>
            (fetchData db'
               {| app_transactions := app_transactions st;
                  app_stats := app_stats st;
                  isAdding := false;
                  deletingTransaction := deletingTransaction st;
                  deleteConfirmText := deleteConfirmText st;
                  formData := blank_form today |},
             db')
        | (_, db') => (st, db')
        end
    end.

(** [handleDelete]: it returns at once when no record awaits
    confirmation, or when the text typed differs from that record's
    category; otherwise it sends the [DELETE] and, on [ok], closes the
    dialog, clears the text and fetches. *)
Definition handleDelete (st : AppState) (db : Database) : AppState * Database :=
  match deletingTransaction st with
  | None => (st, db)
  | Some t =>
      if negb (String.eqb (deleteConfirmText st) (category t)) then (st, db)
      else
        match delete_transaction integer_of_text (number_to_string (id t)) db with
        | (DeleteOk, db') =>
            (fetchData db'
               {| app_transactions := app_transactions st;
                  app_stats := app_stats st;
                  isAdding := isAdding st;
                  deletingTransaction := None;
                  deleteConfirmText := EmptyString;
                  formData := formData st |},
             db')
        | (DeleteFailed, db') => (st, db')
        end
  end.

(** What the user can do, each constructor one handler of the page. *)
Inductive Event : Type :=
| OpenAdd                                (* [setIsAdding(true)] *)
| CloseAdd                               (* [setIsAdding(false)] *)
| ChangeAmount (value : string)
| ChangeDescription (value : string)
| ChangeDate (value : string)
| SwitchType (t : TransactionType)       (* the two buttons of the dialog *)
| SelectCategory (option_index : nat)    (* an [<option>] of the [<select>] *)
| Submit (now today : string)            (* [handleSubmit] *)
| AskDelete (row : nat)                  (* the bin beside a listed record *)
| ChangeConfirmText (value : string)
| CancelDelete                           (* [setDeletingTransaction(null)] *)
| ConfirmDelete.                         (* [handleDelete] *)

Definition set_form (st : AppState) (form : FormData) : AppState :=
  {| app_transactions := app_transactions st; app_stats := app_stats st;
     isAdding := isAdding st; deletingTransaction := deletingTransaction st;
     deleteConfirmText := deleteConfirmText st; formData := form |}.

Definition set_adding (st : AppState) (b : bool) : AppState :=
  {| app_transactions := app_transactions st; app_stats := app_stats st;
     isAdding := b; deletingTransaction := deletingTransaction st;
     deleteConfirmText := deleteConfirmText st; formData := formData st |}.

Definition set_deleting (st : AppState) (t : option Transaction)
    (text : string) : AppState :=
  {| app_transactions := app_transactions st; app_stats := app_stats st;
     isAdding := isAdding st; deletingTransaction := t;
     deleteConfirmText := text; formData := formData st |}.

(** One event.  The form can be submitted only while the dialog is open;
    the [<select>] offers the categories of the form's type, and a row's
    bin belongs to a record of the fetched listing.  The fields accept any
    text (what the browser's own input validation excludes is not taken
    away here). *)
Definition handle (e : Event) (st : AppState) (db : Database)
  : AppState * Database :=
  let form := formData st in
  match e with
  | OpenAdd => (set_adding st true, db)
  | CloseAdd => (set_adding st false, db)
  | ChangeAmount v =>
      (set_form st {| form_amount := v; form_type := form_type form;
                      form_category := form_category form;
                      form_description := form_description form;
                      form_date := form_date form |}, db)
  | ChangeDescription v =>
      (set_form st {| form_amount := form_amount form;
                      form_type := form_type form;
                      form_category := form_category form;
                      form_description := v;
                      form_date := form_date form |}, db)
  | ChangeDate v =>
      (set_form st {| form_amount := form_amount form;
                      form_type := form_type form;
                      form_category := form_category form;
                      form_description := form_description form;
                      form_date := v |}, db)
  | SwitchType t =>
      (set_form st {| form_amount := form_amount form; form_type := t;
                      form_category := hd EmptyString (CATEGORIES t);
                      form_description := form_description form;
                      form_date := form_date form |}, db)
  | SelectCategory n =>
      match nth_error (CATEGORIES (form_type form)) n with
      | Some c =>
          (set_form st {| form_amount := form_amount form;
                          form_type := form_type form;
                          form_category := c;
                          form_description := form_description form;
                          form_date := form_date form |}, db)
      | None => (st, db)
      end
  | Submit now today =>
      if isAdding st then handleSubmit now today st db else (st, db)
  | AskDelete n =>
      match nth_error (app_transactions st) n with
      | Some t => (set_deleting st (Some t) EmptyString, db)
      | None => (st, db)
      end
  | ChangeConfirmText v =>
      (set_deleting st (deletingTransaction st) v, db)
  | CancelDelete => (set_deleting st None (deleteConfirmText st), db)
  | ConfirmDelete => handleDelete st db
  end.

(** A session: the page is mounted on a database (the effect hook
    fetches), then the events happen in order. *)
Definition session (today : string) (db : Database) (events : list Event)
  : AppState * Database :=
  fold_left (fun s e => handle e (fst s) (snd s)) events
    (fetchData db (initial_state today), db).
End Handlers.

(** What holds of the page and the server together throughout a session. *)
Definition in_step (st : AppState) (db : Database) : Prop :=
  app_transactions st = get_transactions db /\
  app_stats st = get_stats db /\
  (forall t, deletingTransaction st = Some t -> In t (transactions db)) /\
  In (form_category (formData st)) (CATEGORIES (form_type (formData st))).

(** A record as the form can create it. *)
Definition from_the_form (r : Transaction) : Prop :=
  exists t, type r = type_name t /\ In (category r) (CATEGORIES t).

(** A reading of decimal numerals for [Number], to run examples with. *)
Definition decimal_number (s : string) : option Q :=
  option_map inject_Z (decimal_integer s).

(** [transactions.slice(0, 5)], the records [generateAIAdvice] quotes in
    its prompt. *)
Definition recent (txs : list Transaction) : list Transaction := firstn 5 txs.

(** * Properties *)

(** ** Validation on [POST] *)

Lemma post_missing (now : string) (body : Body) (db : Database) :
  missing_required body = true ->
  post_transactions now body db = (PostMissingFields, db).
Proof.
  unfold missing_required, post_transactions.
  destruct (truthy_number (req_amount body)); [ | reflexivity ].
  destruct (truthy_string (req_type body)); [ | reflexivity ].
  destruct (truthy_string (req_category body)); [ | reflexivity ].
  destruct (truthy_string (req_date body)); [ | reflexivity ].
  discriminate.
Qed.

Lemma truthy_string_val (f : Field string) (s : string) :
  truthy_string f = Some s -> f = Val s.
Proof.
  destruct f as [ | | s']; simpl; try discriminate.
  destruct (String.eqb s' EmptyString); congruence.
Qed.

Lemma truthy_number_val (f : Field Q) (x : Q) :
  truthy_number f = Some x -> f = Val x /\ ~ (x == 0)%Q.
Proof.
  destruct f as [ | | x']; simpl; try discriminate.
  destruct (Qeq_bool x' 0) eqn:E; [ discriminate | ].
  intros [= ->]. split; [ reflexivity | ].
  intro H. apply Qeq_bool_iff in H. congruence.
Qed.

Lemma post_type_refused (now : string) (body : Body) (db : Database) :
  missing_required body = false -> type_allowed body = false ->
  post_transactions now body db = (PostFailed, db).
Proof.
  unfold missing_required, post_transactions, type_allowed.
  destruct (truthy_number (req_amount body)); [ | discriminate ].
  destruct (truthy_string (req_type body)) as [t | ] eqn:Et; [ | discriminate ].
  destruct (truthy_string (req_category body)); [ | discriminate ].
  destruct (truthy_string (req_date body)); [ | discriminate ].
  intros _. rewrite (truthy_string_val _ _ Et). intros Hc.
  unfold insert. rewrite Hc. reflexivity.
Qed.

(** C1, as the specification states it, fails: a negative amount is
    neither missing nor zero, so the guard lets it through, the table has no
    constraint on the sign, and the record is stored and listed. *)
Lemma C1_negative_amount_is_stored :
  (-5 <= 0)%Q /\
  post_transactions noon (request (-5) "expense" "food" "2024-01-01") empty_db
  = (PostOk 1,
     {| transactions := [tx 1 (-5) "expense" "food" "2024-01-01" noon];
        sqlite_sequence := 1 |}) /\
  get_transactions empty_db = [] /\
  get_transactions
    (snd (post_transactions noon (request (-5) "expense" "food" "2024-01-01")
            empty_db))
  = [tx 1 (-5) "expense" "food" "2024-01-01" noon].
Proof.
  split; [ discriminate | ].
  repeat split; reflexivity.
Qed.

(** A date that is no calendar date is stored as it comes. *)
Example malformed_date_is_stored :
  valid_calendar_date "someday" = false /\
  post_transactions noon (request 5 "expense" "food" "someday") empty_db
  = (PostOk 1,
     {| transactions := [tx 1 5 "expense" "food" "someday" noon];
        sqlite_sequence := 1 |}).
Proof. split; reflexivity. Qed.

(** A type outside the two is answered with the 500 of the handler's
    [catch], not with the 400 of its guard. *)
Example unknown_type_is_a_server_error :
  post_transactions noon (request 5 "transfer" "food" "2024-01-01") empty_db
  = (PostFailed, empty_db).
Proof. reflexivity. Qed.

(** C1 (amended): a request whose amount is absent, [null] or zero, or
    whose type, category or date is absent, [null] or empty, is answered
    400; one that passes this guard with a type other than [income] and
    [expense] is refused by the table's [CHECK] and answered 500.  In both
    cases the database, and with it the listing, is left as it was. *)
Theorem C1_post_rejects_without_effect (now : string) (body : Body) (db : Database) :
  missing_required body || negb (type_allowed body) = true ->
  post_transactions now body db
  = (if missing_required body then PostMissingFields else PostFailed, db)
  /\ get_transactions (snd (post_transactions now body db)) = get_transactions db.
Proof.
  intros H.
  assert (E : post_transactions now body db
              = (if missing_required body then PostMissingFields else PostFailed, db)).
  { destruct (missing_required body) eqn:Em.
    - now apply post_missing.
    - apply post_type_refused; [ exact Em | ].
      simpl in H. now apply negb_true_iff in H. }
  split; [ exact E | now rewrite E ].
Qed.

Lemma C1_post_rejects_witness :
  post_transactions noon (request 0 "expense" "food" "2024-01-01") empty_db
  = (PostMissingFields, empty_db)
  /\ get_transactions
       (snd (post_transactions noon (request 0 "expense" "food" "2024-01-01")
               empty_db))
     = get_transactions empty_db.
Proof.
  exact (C1_post_rejects_without_effect noon
           (request 0 "expense" "food" "2024-01-01") empty_db eq_refl).
Defined.

(** ** Sums *)

Lemma sum_amounts_app (l1 l2 : list Transaction) :
  (sum_amounts (l1 ++ l2) == sum_amounts l1 + sum_amounts l2)%Q.
Proof.
  induction l1 as [ | r l1 IH]; simpl.
  - ring.
  - rewrite IH. ring.
Qed.

Lemma filter_perm {A : Type} (f : A -> bool) (l1 l2 : list A) :
  Permutation l1 l2 -> Permutation (filter f l1) (filter f l2).
Proof.
  induction 1 as [ | x l l' _ IH | x y l | l l' l'' _ IH1 _ IH2]; simpl.
  - constructor.
  - destruct (f x); [ now constructor | exact IH ].
  - destruct (f x), (f y); try reflexivity. constructor.
  - now transitivity (filter f l').
Qed.

Lemma filter_none {A : Type} (f : A -> bool) (l : list A) :
  (forall x, In x l -> f x = false) -> filter f l = [].
Proof.
  induction l as [ | x l IH]; simpl; intros H; [ reflexivity | ].
  rewrite (H x) by now left. apply IH. intros; apply H; now right.
Qed.

(** The aggregate's context after a scan: every row was counted, and the
    running sum has grown by the amounts of the rows of type [ty]. *)
Lemma sumStep_scan (ty : string) (rows : list Transaction) (p : SumCtx) :
  cnt (fold_left sumStep (map (case_amount ty) rows) p)
  = (cnt p + List.length rows)%nat /\
  (rSum (fold_left sumStep (map (case_amount ty) rows) p)
   == rSum p + sum_amounts (filter (has_type ty) rows))%Q.
Proof.
  revert p. induction rows as [ | r rows IH]; intros p.
  - simpl. split; [ lia | ring ].
  - cbn [map fold_left filter List.length].
    destruct (IH (sumStep p (case_amount ty r))) as [Hc Hs].
    rewrite Hc, Hs. unfold case_amount, has_type.
    destruct (String.eqb (type r) ty); simpl; split; try lia; ring.
Qed.

Lemma SUM_case_amount (ty : string) (r : Transaction) (rows : list Transaction) :
  exists s, SUM (map (case_amount ty) (r :: rows)) = Some s /\
            (s == sum_amounts (filter (has_type ty) (r :: rows)))%Q.
Proof.
  unfold SUM.
  destruct (sumStep_scan ty (r :: rows) {| cnt := 0; rSum := 0 |}) as [Hc Hs].
  unfold sumFinalize. rewrite Hc. simpl Nat.add. simpl List.length.
  eexists. split; [ reflexivity | ].
  rewrite Hs. simpl rSum. ring.
Qed.


(** A sum taken term after term is the sum. *)
Lemma sum_in_order_amounts (l : list Transaction) :
  (sum_in_order (map amount l) == sum_amounts l)%Q.
Proof.
  unfold sum_in_order.
  assert (H : forall s, (fold_left Qplus (map amount l) s == s + sum_amounts l)%Q).
  { induction l as [ | t l IH]; intros s; simpl.
    - ring.
    - rewrite IH. ring. }
  rewrite H. ring.
Qed.



(** ** Sorting *)

Section OrderByFacts.
Context {A : Type} (leb : A -> A -> bool) (P : A -> Prop).

Hypothesis leb_total :
  forall x y, P x -> P y -> leb x y = false -> leb y x = true.
Hypothesis leb_trans :
  forall x y z, P x -> P y -> P z ->
                leb x y = true -> leb y z = true -> leb x z = true.

Lemma insert_sorted_perm (x : A) (l : list A) :
  Permutation (x :: l) (insert_sorted leb x l).
Proof.
  induction l as [ | y l IH]; simpl.
  - reflexivity.
  - destruct (leb y x); [ | reflexivity ].
    rewrite perm_swap. now constructor.
Qed.

Lemma order_by_acc_perm (l acc : list A) :
  Permutation (acc ++ l) (fold_left (fun s x => insert_sorted leb x s) l acc).
Proof.
  revert acc. induction l as [ | x l IH]; intros acc; simpl.
  - now rewrite app_nil_r.
  - rewrite <- IH, <- Permutation_middle.
    apply (Permutation_app_tail l (insert_sorted_perm x acc)).
Qed.

Lemma order_by_perm (l : list A) : Permutation l (order_by leb l).
Proof. exact (order_by_acc_perm l []). Qed.

Lemma insert_sorted_Forall (Q : A -> Prop) (x : A) (l : list A) :
  Q x -> Forall Q l -> Forall Q (insert_sorted leb x l).
Proof.
  intros Hx Hl. eapply Permutation_Forall; [ apply insert_sorted_perm | ].
  now constructor.
Qed.

Lemma insert_sorted_sorted (x : A) (l : list A) :
  P x -> Forall P l -> StronglySorted (holds leb) l ->
  StronglySorted (holds leb) (insert_sorted leb x l).
Proof.
  intros Px Pl Hs. induction Hs as [ | y l Hs IH Hy]; simpl.
  - repeat constructor.
  - inversion Pl as [ | ? ? Py Pl']; subst.
    destruct (leb y x) eqn:E.
    + constructor; [ now apply IH | ].
      apply insert_sorted_Forall; assumption.
    + assert (Hxy : holds leb x y) by (now apply leb_total).
      constructor; [ now constructor | ].
      constructor; [ exact Hxy | ].
      rewrite Forall_forall in *. intros z Hz.
      apply (leb_trans x y z); auto.
      now apply Hy.
Qed.

Lemma order_by_acc_sorted (l acc : list A) :
  Forall P l -> Forall P acc -> StronglySorted (holds leb) acc ->
  StronglySorted (holds leb) (fold_left (fun s x => insert_sorted leb x s) l acc).
Proof.
  revert acc. induction l as [ | x l IH]; intros acc Pl Pa Hs; simpl.
  - exact Hs.
  - inversion Pl; subst. apply IH; auto.
    + now apply insert_sorted_Forall.
    + now apply insert_sorted_sorted.
Qed.

Lemma order_by_sorted (l : list A) :
  Forall P l -> StronglySorted (holds leb) (order_by leb l).
Proof.
  intros Pl. apply order_by_acc_sorted; auto. constructor.
Qed.
End OrderByFacts.

Lemma StronglySorted_weaken {A : Type} (R S : A -> A -> Prop) (l : list A) :
  (forall x y, In x l -> In y l -> R x y -> S x y) ->
  StronglySorted R l -> StronglySorted S l.
Proof.
  intros H Hs. induction Hs as [ | x l Hs IH Hx].
  - constructor.
  - constructor.
    + apply IH. intros y z Hy Hz. apply H; now right.
    + rewrite Forall_forall in *. intros y Hy.
      apply H; [ now left | now right | now apply Hx ].
Qed.

(** *** The bytewise order of text *)

Lemma text_lt_irrefl (a : string) : ~ String_as_OT.lt a a.
Proof. exact (@StrictOrder_Irreflexive _ _ String_as_OT.lt_strorder a). Qed.

Lemma text_lt_trans (a b c : string) :
  String_as_OT.lt a b -> String_as_OT.lt b c -> String_as_OT.lt a c.
Proof. exact (@StrictOrder_Transitive _ _ String_as_OT.lt_strorder a b c). Qed.

Lemma text_compare_eq (a b : string) : text_compare a b = Eq -> a = b.
Proof.
  unfold text_compare.
  destruct (String_as_OT.compare_spec a b) as [H | H | H]; congruence.
Qed.

Lemma text_compare_refl (a : string) : text_compare a a = Eq.
Proof.
  unfold text_compare.
  destruct (String_as_OT.compare_spec a a) as [H | H | H]; auto;
    exfalso; exact (text_lt_irrefl a H).
Qed.

Lemma text_compare_lt (a b : string) :
  text_compare a b = Lt <-> String_as_OT.lt a b.
Proof. reflexivity. Qed.

Lemma text_compare_gt (a b : string) :
  text_compare a b = Gt <-> text_compare b a = Lt.
Proof.
  unfold text_compare.
  destruct (String_as_OT.compare_spec a b) as [H | H | H];
    destruct (String_as_OT.compare_spec b a) as [H' | H' | H'];
    split; intros E; try discriminate E; try reflexivity; exfalso;
    unfold String_as_OT.eq in *; subst.
  all: try (exact (text_lt_irrefl _ H)).
  all: try (exact (text_lt_irrefl _ H')).
  all: exact (text_lt_irrefl _ (text_lt_trans _ _ _ H H')).
Qed.

Lemma text_compare_lt_trans (a b c : string) :
  text_compare a b = Lt -> text_compare b c = Lt -> text_compare a c = Lt.
Proof. exact (text_lt_trans a b c). Qed.

Lemma text_compare_gt_trans (a b c : string) :
  text_compare a b = Gt -> text_compare b c = Gt -> text_compare a c = Gt.
Proof.
  rewrite !text_compare_gt. intros H1 H2.
  exact (text_compare_lt_trans c b a H2 H1).
Qed.

(** Not below: [a >= b]. *)
Lemma text_compare_ge_trans (a b c : string) :
  text_compare a b <> Lt -> text_compare b c <> Lt -> text_compare a c <> Lt.
Proof.
  intros H1 H2 H3.
  destruct (text_compare a b) eqn:Eab; try congruence.
  - apply text_compare_eq in Eab. subst. congruence.
  - destruct (text_compare b c) eqn:Ebc; try congruence.
    + apply text_compare_eq in Ebc. subst. congruence.
    + pose proof (text_compare_gt_trans _ _ _ Eab Ebc). congruence.
Qed.

Lemma comes_first_listed (a b : Transaction) :
  comes_first a b = true <-> listed_before a b.
Proof.
  unfold comes_first, listed_before.
  destruct (text_compare (date a) (date b)) eqn:Ed.
  - apply text_compare_eq in Ed.
    destruct (text_compare (created_at a) (created_at b)); split; intros H;
      try reflexivity; try discriminate;
      try (right; split; [ exact Ed | discriminate ]);
      destruct H as [H | [_ H]]; congruence.
  - split; [ discriminate | ].
    intros [H | [H _]]; [ discriminate | ].
    rewrite H, text_compare_refl in Ed. discriminate.
  - split; auto.
Qed.

Lemma comes_first_total (a b : Transaction) :
  comes_first a b = false -> comes_first b a = true.
Proof.
  unfold comes_first.
  destruct (text_compare (date a) (date b)) eqn:Ed; try discriminate.
  - apply text_compare_eq in Ed. rewrite Ed, text_compare_refl.
    destruct (text_compare (created_at a) (created_at b)) eqn:Ec; try discriminate.
    intros _.
    destruct (text_compare (created_at b) (created_at a)) eqn:Ec'; auto.
    apply text_compare_gt in Ec. congruence.
  - intros _. apply text_compare_gt in Ed. now rewrite Ed.
Qed.

Lemma comes_first_trans (a b c : Transaction) :
  comes_first a b = true -> comes_first b c = true -> comes_first a c = true.
Proof.
  rewrite !comes_first_listed. unfold listed_before.
  intros [H1 | [E1 H1]] [H2 | [E2 H2]].
  - left. eapply text_compare_gt_trans; eauto.
  - left. now rewrite <- E2.
  - left. now rewrite E1.
  - right. split; [ congruence | ].
    eapply text_compare_ge_trans; eauto.
Qed.

Lemma get_transactions_perm (db : Database) :
  Permutation (transactions db) (get_transactions db).
Proof. apply order_by_perm. Qed.

(** *** Records equal in both keys *)

Section OrderByStable.
Context {A : Type} (leb : A -> A -> bool) (T : A -> A -> Prop).

Hypothesis leb_total : forall x y, leb x y = false -> leb y x = true.
Hypothesis leb_trans :
  forall x y z, leb x y = true -> leb y z = true -> leb x z = true.

(** A new element goes behind all those it may not overtake, the ones of
    its own rank among them. *)
Lemma insert_sorted_stable (x : A) (l : list A) :
  StronglySorted (stable leb T) l -> Forall (fun y => T y x) l ->
  StronglySorted (stable leb T) (insert_sorted leb x l).
Proof.
  intros Hs. induction Hs as [ | y l Hs IH Hy]; intros Ht; simpl.
  - repeat constructor.
  - inversion Ht as [ | ? ? Tyx Ht']; subst.
    destruct (leb y x) eqn:E.
    + constructor; [ now apply IH | ].
      apply insert_sorted_Forall; [ | exact Hy ].
      split; [ exact E | intros _; exact Tyx ].
    + constructor; [ now constructor | ].
      rewrite Forall_forall in Hy.
      constructor.
      * split; [ now apply leb_total | congruence ].
      * apply Forall_forall. intros z Hz. destruct (Hy z Hz) as [Hyz _]. split.
        { apply (leb_trans x y z); [ now apply leb_total | exact Hyz ]. }
        intros Hzx. rewrite (leb_trans y z x Hyz Hzx) in E. discriminate.
Qed.

Lemma order_by_acc_stable (l acc : list A) :
  StronglySorted T l -> StronglySorted (stable leb T) acc ->
  Forall (fun y => Forall (T y) l) acc ->
  StronglySorted (stable leb T)
    (fold_left (fun s x => insert_sorted leb x s) l acc).
Proof.
  revert acc. induction l as [ | x l IH]; intros acc Hl Hs Ha; simpl.
  - exact Hs.
  - inversion Hl as [ | ? ? Hl' Hx]; subst. apply IH.
    + exact Hl'.
    + apply insert_sorted_stable; [ exact Hs | ].
      eapply Forall_impl; [ | exact Ha ]. simpl. intros y Hy.
      now inversion Hy.
    + apply insert_sorted_Forall; [ exact Hx | ].
      eapply Forall_impl; [ | exact Ha ]. simpl. intros y Hy.
      now inversion Hy.
Qed.

Lemma order_by_stable (l : list A) :
  StronglySorted T l -> StronglySorted (stable leb T) (order_by leb l).
Proof.
  intros Hl. apply order_by_acc_stable; [ exact Hl | constructor | constructor ].
Qed.
End OrderByStable.

Lemma StronglySorted_by_key {A B : Type} (f : A -> B) (R : B -> B -> Prop)
    (l : list A) :
  StronglySorted R (map f l) -> StronglySorted (fun x y => R (f x) (f y)) l.
Proof.
  induction l as [ | x l IH]; simpl; intros Hs; [ constructor | ].
  inversion Hs as [ | ? ? Hs' Hx]; subst. constructor; [ now apply IH | ].
  rewrite Forall_forall in *. intros y Hy. apply Hx. now apply in_map.
Qed.

(** ** Appending *)

Lemma largest_rowid_bound (rows : list Transaction) (r : Transaction) :
  In r rows -> id r <= largest_rowid rows.
Proof.
  induction rows as [ | x rows IH]; simpl; [ tauto | ].
  intros [-> | H]; [ lia | ]. specialize (IH H). lia.
Qed.

Lemma largest_rowid_nonneg (rows : list Transaction) : 0 <= largest_rowid rows.
Proof. induction rows; simpl; lia. Qed.

(** The two ways a [POST] can end. *)
Lemma post_inversion (now : string) (body : Body) (db : Database) :
  (exists resp, post_transactions now body db = (resp, db) /\
                forall i, resp <> PostOk i) \/
  (exists a t c d,
      truthy_number (req_amount body) = Some a /\
      truthy_string (req_type body) = Some t /\
      truthy_string (req_category body) = Some c /\
      truthy_string (req_date body) = Some d /\
      check_type t = true /\
      Z.max (sqlite_sequence db) (largest_rowid (transactions db)) < max_rowid /\
      let i := Z.max (sqlite_sequence db) (largest_rowid (transactions db)) + 1 in
      post_transactions now body db
      = (PostOk i,
         {| transactions :=
              transactions db
              ++ [ {| id := i; amount := a; type := t; category := c;
                      description := bind_nullable (req_description body);
                      date := d; created_at := now |} ];
            sqlite_sequence := i |})).
Proof.
  unfold post_transactions.
  destruct (truthy_number (req_amount body)) as [a | ]; [ | refused ].
  destruct (truthy_string (req_type body)) as [t | ]; [ | refused ].
  destruct (truthy_string (req_category body)) as [c | ]; [ | refused ].
  destruct (truthy_string (req_date body)) as [d | ]; [ | refused ].
  unfold insert.
  destruct (check_type t) eqn:Ec; simpl; [ | refused ].
  destruct (max_rowid <=? _) eqn:El; [ refused | ].
  right. exists a, t, c, d. apply Z.leb_gt in El. repeat split; auto.
Qed.

Lemma valid_input_truthy (body : Body) :
  valid_input body ->
  exists a t c d,
    req_amount body = Val a /\ req_type body = Val t /\
    req_category body = Val c /\ req_date body = Val d /\
    truthy_number (req_amount body) = Some a /\
    truthy_string (req_type body) = Some t /\
    truthy_string (req_category body) = Some c /\
    truthy_string (req_date body) = Some d /\
    check_type t = true.
Proof.
  intros ((a & Ea & Ha) & Ht & (c & Ec & Hc) & (d & Ed & Hd)).
  assert (Hd' : d <> EmptyString) by (intros ->; discriminate).
  assert (Hty : exists t, req_type body = Val t /\ t <> EmptyString /\
                          check_type t = true).
  { destruct Ht as [Ht | Ht]; eexists; (split; [ exact Ht | ]);
      split; try discriminate; reflexivity. }
  destruct Hty as (t & Et & Ht1 & Ht2).
  exists a, t, c, d. rewrite Ea, Et, Ec, Ed. simpl.
  apply String.eqb_neq in Hc, Hd', Ht1. rewrite Hc, Hd', Ht1.
  destruct (Qeq_bool a 0) eqn:E.
  - apply Qeq_bool_iff in E. rewrite E in Ha. discriminate.
  - repeat split; auto.
Qed.

(** C3, as stated, fails: the table does not keep field values unique, so
    an input posted twice is listed twice, and both records match it. *)
Lemma C3_same_input_twice :
  let body := request 50 "expense" "food" "2024-01-01" in
  let db1 := snd (post_transactions "2024-01-01 09:00:00" body empty_db) in
  let db2 := snd (post_transactions "2024-01-01 09:00:05" body db1) in
  get_transactions db2
  = [tx 2 50 "expense" "food" "2024-01-01" "2024-01-01 09:00:05";
     tx 1 50 "expense" "food" "2024-01-01" "2024-01-01 09:00:00"] /\
  matches_input body (tx 2 50 "expense" "food" "2024-01-01" "2024-01-01 09:00:05") /\
  matches_input body (tx 1 50 "expense" "food" "2024-01-01" "2024-01-01 09:00:00").
Proof. repeat split. Qed.

(** C3 (amended): a valid input, posted to a table whose keys are not used
    up, is answered with a key; the listing then is the former listing with
    exactly one record added; that record carries the input's amount, type,
    category, description and date; it is the only listed record with the
    returned key, and every record stored before has a smaller key. *)
Theorem C3_append_then_list (now : string) (body : Body) (db : Database) :
  valid_input body ->
  Z.max (sqlite_sequence db) (largest_rowid (transactions db)) < max_rowid ->
  exists i r db',
    post_transactions now body db = (PostOk i, db') /\
    id r = i /\ matches_input body r /\ created_at r = now /\
    Permutation (r :: get_transactions db) (get_transactions db') /\
    filter (fun x => id x =? i) (get_transactions db') = [r] /\
    (forall r', In r' (get_transactions db) -> id r' < i).
Proof.
  intros Hv Hfree.
  destruct (valid_input_truthy body Hv)
    as (a & t & c & d & Ea & Et & Ec & Ed & Ta & Tt & Tc & Td & Hc).
  destruct (post_inversion now body db) as [(resp & E & Hno) | H].
  - exfalso. revert E Hno. unfold post_transactions.
    rewrite Ta, Tt, Tc, Td. unfold insert. rewrite Hc. simpl.
    apply Z.leb_gt in Hfree. rewrite Hfree.
    intros [= <- _] Hno. exact (Hno _ eq_refl).
  - destruct H as (a' & t' & c' & d' & Ta' & Tt' & Tc' & Td' & _ & _ & E).
    rewrite Ta in Ta'. rewrite Tt in Tt'. rewrite Tc in Tc'. rewrite Td in Td'.
    injection Ta' as <-. injection Tt' as <-.
    injection Tc' as <-. injection Td' as <-.
    cbv zeta in E.
    set (i := Z.max (sqlite_sequence db) (largest_rowid (transactions db)) + 1) in *.
    set (r := {| id := i; amount := a; type := t; category := c;
                 description := bind_nullable (req_description body);
                 date := d; created_at := now |}) in *.
    assert (Hold : forall r', In r' (get_transactions db) -> id r' < i).
    { intros r' Hr'.
      apply (Permutation_in _ (Permutation_sym (get_transactions_perm db))) in Hr'.
      apply largest_rowid_bound in Hr'. unfold i. lia. }
    assert (Hperm : Permutation (r :: get_transactions db)
                      (get_transactions
                         {| transactions := transactions db ++ [r];
                            sqlite_sequence := i |})).
    { rewrite <- (get_transactions_perm
                    {| transactions := transactions db ++ [r];
                       sqlite_sequence := i |}).
      simpl. rewrite <- (get_transactions_perm db).
      apply Permutation_cons_append. }
    exists i, r, {| transactions := transactions db ++ [r]; sqlite_sequence := i |}.
    repeat split; auto.
    apply Permutation_length_1_inv.
    rewrite <- (filter_perm _ _ _ Hperm). simpl. rewrite Z.eqb_refl.
    replace (filter (fun x => id x =? i) (get_transactions db)) with (@nil Transaction);
      [ reflexivity | ].
    symmetry. apply filter_none. intros x Hx.
    apply Hold in Hx. apply Z.eqb_neq. lia.
Qed.

Lemma C3_append_then_list_witness :
  exists i r db',
    post_transactions noon (request 50 "expense" "food" "2024-01-01") empty_db
    = (PostOk i, db') /\
    id r = i /\
    matches_input (request 50 "expense" "food" "2024-01-01") r /\
    created_at r = noon /\
    Permutation (r :: get_transactions empty_db) (get_transactions db') /\
    filter (fun x => id x =? i) (get_transactions db') = [r] /\
    (forall r', In r' (get_transactions empty_db) -> id r' < i).
Proof.
  apply (C3_append_then_list noon (request 50 "expense" "food" "2024-01-01") empty_db).
  - repeat split.
    + exists 50%Q. split; reflexivity.
    + right. reflexivity.
    + exists "food"%string. split; [ reflexivity | discriminate ].
    + exists "2024-01-01"%string. split; reflexivity.
  - reflexivity.
Defined.

(** ** Deleting *)

Lemma filter_all {A : Type} (f : A -> bool) (l : list A) :
  (forall x, In x l -> f x = true) -> filter f l = l.
Proof.
  induction l as [ | x l IH]; simpl; intros H; [ reflexivity | ].
  rewrite (H x) by now left. f_equal. apply IH. intros; apply H; now right.
Qed.

Lemma filter_twice {A : Type} (f : A -> bool) (l : list A) :
  filter f (filter f l) = filter f l.
Proof.
  apply filter_all. intros x Hx. now apply filter_In in Hx.
Qed.

Lemma delete_transaction_eq (read : string -> option Z) (param : string)
    (db : Database) :
  delete_transaction read param db
  = (DeleteOk,
     {| transactions :=
          filter (fun r => negb match read param with
                                | Some n => id r =? n
                                | None => false
                                end) (transactions db);
        sqlite_sequence := sqlite_sequence db |}).
Proof. reflexivity. Qed.

(** C4: when the route parameter reads as the key [n], the answer is the
    success acknowledgement; the table keeps, in their order and unchanged,
    exactly the records whose key is not [n], whether or not one had it;
    and the same request on the result succeeds again and changes
    nothing. *)
Theorem C4_delete_by_id (read : string -> option Z) (param : string) (n : Z)
    (db : Database) :
  read param = Some n ->
  exists db',
    delete_transaction read param db = (DeleteOk, db') /\
    transactions db' = filter (fun r => negb (id r =? n)) (transactions db) /\
    (forall r, In r (transactions db') <-> In r (transactions db) /\ id r <> n) /\
    sqlite_sequence db' = sqlite_sequence db /\
    delete_transaction read param db' = (DeleteOk, db').
Proof.
  intros Hn. rewrite delete_transaction_eq, Hn.
  eexists. split; [ reflexivity | ]. simpl.
  split; [ reflexivity | ].
  split; [ | split; [ reflexivity | ] ].
  - intros r. rewrite filter_In, negb_true_iff, Z.eqb_neq. tauto.
  - rewrite delete_transaction_eq, Hn. simpl. now rewrite filter_twice.
Qed.

Lemma C4_delete_by_id_witness :
  exists db',
    delete_transaction decimal_integer "1"
      {| transactions := [tx 1 50 "expense" "food" "2024-01-01" noon;
                          tx 2 1000 "income" "salary" "2024-01-01" noon];
         sqlite_sequence := 2 |}
    = (DeleteOk, db') /\
    transactions db'
    = filter (fun r => negb (id r =? 1))
        [tx 1 50 "expense" "food" "2024-01-01" noon;
         tx 2 1000 "income" "salary" "2024-01-01" noon] /\
    (forall r, In r (transactions db') <->
               In r [tx 1 50 "expense" "food" "2024-01-01" noon;
                     tx 2 1000 "income" "salary" "2024-01-01" noon]
               /\ id r <> 1) /\
    sqlite_sequence db' = 2 /\
    delete_transaction decimal_integer "1" db' = (DeleteOk, db').
Proof.
  exact (C4_delete_by_id decimal_integer "1" 1
           {| transactions := [tx 1 50 "expense" "food" "2024-01-01" noon;
                               tx 2 1000 "income" "salary" "2024-01-01" noon];
              sqlite_sequence := 2 |} eq_refl).
Defined.

(** C10: whatever string stands in the route, and however SQLite reads
    it, the answer is the success acknowledgement (the handler has no 400);
    and when no stored key equals what the string reads as, in particular
    when it does not read as an integer at all, the database is left as it
    was. *)
Theorem C10_delete_any_parameter (read : string -> option Z) (param : string)
    (db : Database) :
  fst (delete_transaction read param db) = DeleteOk /\
  ((forall r, In r (transactions db) -> read param <> Some (id r)) ->
   snd (delete_transaction read param db) = db).
Proof.
  rewrite delete_transaction_eq. split; [ reflexivity | ].
  intros H. simpl. destruct db as [rows seq]. simpl in *. f_equal.
  apply filter_all. intros r Hr. specialize (H r Hr).
  destruct (read param) as [n | ]; [ | reflexivity ].
  apply negb_true_iff, Z.eqb_neq. congruence.
Qed.

Lemma C10_delete_any_parameter_witness :
  fst (delete_transaction decimal_integer "abc"
         {| transactions := [tx 1 50 "expense" "food" "2024-01-01" noon];
            sqlite_sequence := 1 |}) = DeleteOk /\
  snd (delete_transaction decimal_integer "abc"
         {| transactions := [tx 1 50 "expense" "food" "2024-01-01" noon];
            sqlite_sequence := 1 |})
  = {| transactions := [tx 1 50 "expense" "food" "2024-01-01" noon];
       sqlite_sequence := 1 |}.
Proof.
  destruct (C10_delete_any_parameter decimal_integer "abc"
              {| transactions := [tx 1 50 "expense" "food" "2024-01-01" noon];
                 sqlite_sequence := 1 |}) as [H1 H2].
  split; [ exact H1 | ].
  apply H2. intros r _. discriminate.
Defined.

(** ** Invariants *)

Lemma check_type_cases (t : string) :
  check_type t = true -> t = "income"%string \/ t = "expense"%string.
Proof.
  unfold check_type. intros H. apply orb_true_iff in H.
  destruct H as [H | H]; apply String.eqb_eq in H; auto.
Qed.

Lemma keys_sorted_snoc (rows : list Transaction) (r : Transaction) (s : Z) :
  StronglySorted Z.lt (map id rows) ->
  Forall (fun x => 0 < id x <= s) rows -> s < id r ->
  StronglySorted Z.lt (map id (rows ++ [r])).
Proof.
  intros Hs Hb Hr. induction rows as [ | x rows IH]; simpl in *.
  - repeat constructor.
  - inversion Hs as [ | ? ? Hs' Hx]; subst.
    inversion Hb as [ | ? ? Hbx Hb']; subst.
    constructor; [ now apply IH | ].
    rewrite map_app. apply Forall_app. split; [ exact Hx | ].
    repeat constructor. simpl. lia.
Qed.

Lemma keys_sorted_filter (f : Transaction -> bool) (rows : list Transaction) :
  StronglySorted Z.lt (map id rows) ->
  StronglySorted Z.lt (map id (filter f rows)).
Proof.
  induction rows as [ | x rows IH]; simpl; intros Hs; [ constructor | ].
  inversion Hs as [ | ? ? Hs' Hx]; subst.
  destruct (f x); simpl; [ | now apply IH ].
  constructor; [ now apply IH | ].
  rewrite Forall_forall in *. intros k Hk. apply Hx.
  apply in_map_iff in Hk. destruct Hk as (y & <- & Hy).
  apply filter_In in Hy. apply in_map. tauto.
Qed.

Lemma keys_sorted_NoDup (ks : list Z) : StronglySorted Z.lt ks -> NoDup ks.
Proof.
  induction 1 as [ | k ks _ IH Hk]; constructor; auto.
  intros Hin. rewrite Forall_forall in Hk. specialize (Hk k Hin). lia.
Qed.

Lemma post_evolves (now : string) (body : Body) (db : Database) :
  evolves db (snd (post_transactions now body db)).
Proof.
  unfold evolves.
  destruct (post_inversion now body db)
    as [(resp & E & _) | (a & t & c & d & _ & _ & _ & _ & _ & _ & E)];
    rewrite E; clear E; simpl.
  - split; [ lia | auto ].
  - split; [ lia | ]. intros r Hr. apply in_app_or in Hr.
    destruct Hr as [Hr | [<- | []]]; [ now left | right; simpl; lia ].
Qed.

Lemma delete_evolves (read : string -> option Z) (param : string) (db : Database) :
  evolves db (snd (delete_transaction read param db)).
Proof.
  unfold evolves. rewrite delete_transaction_eq. simpl. split; [ lia | ].
  intros r Hr. apply filter_In in Hr. tauto.
Qed.

(** The [INSERT], with whatever values: the new row takes a key above the
    counter, and its type passed the [CHECK]. *)
Lemma insert_preserves (now : string) (a : Q) (t c : string)
    (descr : option string) (d : string) (db db' : Database) (i : Z) :
  store_invariant db -> insert now a t c descr d db = inr (i, db') ->
  store_invariant db' /\ evolves db db' /\
  sqlite_sequence db < i /\ sqlite_sequence db' = i.
Proof.
  intros (Hs & Hb & Hr & Hq) E. unfold insert in E.
  destruct (check_type t) eqn:Hc; simpl in E; [ | discriminate ].
  destruct (max_rowid <=? _) eqn:Hl; [ discriminate | ].
  apply Z.leb_gt in Hl. injection E as <- <-.
  pose proof (largest_rowid_nonneg (transactions db)) as Hn.
  unfold store_invariant, evolves. simpl.
  split; [ | split; [ | split ] ]; [ | | lia | reflexivity ].
  - split; [ | split; [ | split ] ].
    + eapply keys_sorted_snoc; [ exact Hs | exact Hb | simpl; lia ].
    + apply Forall_app. split.
      * eapply Forall_impl; [ | exact Hb ]. simpl. intros; lia.
      * constructor; [ simpl; lia | constructor ].
    + apply Forall_app. split; [ exact Hr | ].
      constructor; [ | constructor ].
      unfold record_ok; simpl. now apply check_type_cases.
    + lia.
  - split; [ lia | ]. intros r Hin. apply in_app_or in Hin.
    destruct Hin as [Hin | [<- | []]]; [ now left | right; simpl; lia ].
Qed.

(** The [DELETE], with whatever operand: rows go, none changes. *)
Lemma delete_where_preserves (operand : option Z) (db db' : Database) (n : nat) :
  store_invariant db -> delete_where_id operand db = inr (n, db') ->
  store_invariant db' /\ evolves db db'.
Proof.
  intros (Hs & Hb & Hr & Hq) E. unfold delete_where_id in E.
  injection E as _ <-. unfold store_invariant, evolves. simpl.
  split; [ split; [ | split; [ | split ] ] | split ].
  - now apply keys_sorted_filter.
  - apply Forall_forall. intros r Hi. apply filter_In in Hi.
    rewrite Forall_forall in Hb. now apply Hb.
  - apply Forall_forall. intros r Hi. apply filter_In in Hi.
    rewrite Forall_forall in Hr. now apply Hr.
  - exact Hq.
  - lia.
  - intros r Hi. apply filter_In in Hi. tauto.
Qed.

Lemma post_preserves (now : string) (body : Body) (db : Database) :
  store_invariant db -> store_invariant (snd (post_transactions now body db)).
Proof.
  intros Hi. unfold post_transactions.
  destruct (truthy_number (req_amount body)) as [a | ]; [ | exact Hi ].
  destruct (truthy_string (req_type body)) as [t | ]; [ | exact Hi ].
  destruct (truthy_string (req_category body)) as [c | ]; [ | exact Hi ].
  destruct (truthy_string (req_date body)) as [d | ]; [ | exact Hi ].
  destruct (insert now a t c (bind_nullable (req_description body)) d db)
    as [e | [i db']] eqn:E; [ exact Hi | ].
  exact (proj1 (insert_preserves _ _ _ _ _ _ _ _ _ Hi E)).
Qed.

Lemma delete_preserves (read : string -> option Z) (param : string) (db : Database) :
  store_invariant db -> store_invariant (snd (delete_transaction read param db)).
Proof.
  intros Hi.
  exact (proj1 (delete_where_preserves (read param) db _ _ Hi eq_refl)).
Qed.

Lemma reachable_invariant (db : Database) : reachable db -> store_invariant db.
Proof.
  induction 1.
  - repeat split; simpl; try constructor; unfold max_rowid; lia.
  - now apply post_preserves.
  - now apply delete_preserves.
Qed.

Lemma table_reachable_invariant (db : Database) :
  table_reachable db -> store_invariant db.
Proof.
  induction 1 as [ | now a t c descr d db db' i _ IH E | operand db db' n _ IH E].
  - repeat split; simpl; try constructor; unfold max_rowid; lia.
  - exact (proj1 (insert_preserves _ _ _ _ _ _ _ _ _ IH E)).
  - exact (proj1 (delete_where_preserves _ _ _ _ IH E)).
Qed.

(** What the two handlers reach, the table can be in. *)
Lemma reachable_table (db : Database) : reachable db -> table_reachable db.
Proof.
  induction 1 as [ | now body db _ IH | read param db _ IH].
  - constructor.
  - unfold post_transactions.
    destruct (truthy_number (req_amount body)) as [a | ]; [ | exact IH ].
    destruct (truthy_string (req_type body)) as [t | ]; [ | exact IH ].
    destruct (truthy_string (req_category body)) as [c | ]; [ | exact IH ].
    destruct (truthy_string (req_date body)) as [d | ]; [ | exact IH ].
    destruct (insert now a t c (bind_nullable (req_description body)) d db)
      as [e | [i db']] eqn:E; [ exact IH | ].
    exact (table_insert _ _ _ _ _ _ _ _ _ IH E).
  - exact (table_delete (read param) db _ _ IH eq_refl).
Qed.

Lemma two_records_reachable : reachable two_records.
Proof.
  exact (reachable_post noon (request 1000 "income" "salary" "2024-01-01") _
           (reachable_post noon (request 50 "expense" "food" "2024-01-01") _
              reachable_empty)).
Qed.

(** C8, as stated, fails: posting a negative amount on a date that is no
    date reaches a state holding that record. *)
Lemma C8_reachable_invalid_record :
  reachable {| transactions := [tx 1 (-5) "expense" "food" "someday" noon];
               sqlite_sequence := 1 |} /\
  (amount (tx 1 (-5) "expense" "food" "someday" noon) <= 0)%Q /\
  valid_calendar_date (date (tx 1 (-5) "expense" "food" "someday" noon)) = false.
Proof.
  split; [ | split; [ discriminate | reflexivity ] ].
  exact (reachable_post noon (request (-5) "expense" "food" "someday")
           empty_db reachable_empty).
Qed.

(** C8 (amended): in every state the table can be in, whatever values the
    inserts that led to it were given, the keys are pairwise distinct, grow
    along the table and lie between 1 and the counter of keys handed out,
    and every record has type [income] or [expense].  An insert or a
    delete, and so a [POST] or a [DELETE], leads to a state where this
    holds again, does not lower the counter, and leaves each record it
    keeps as it was, field for field; a new record gets a key above the
    old counter, hence above every key handed out before.  Nothing is left
    true of the amount, the category or the date. *)
Theorem C8_store_invariants (db : Database) :
  table_reachable db ->
  store_invariant db /\
  NoDup (map id (transactions db)) /\
  (forall now a t c descr d db' i,
      insert now a t c descr d db = inr (i, db') ->
      store_invariant db' /\ evolves db db' /\
      sqlite_sequence db < i /\ sqlite_sequence db' = i) /\
  (forall operand db' n,
      delete_where_id operand db = inr (n, db') ->
      store_invariant db' /\ evolves db db') /\
  (forall now body,
      store_invariant (snd (post_transactions now body db)) /\
      evolves db (snd (post_transactions now body db))) /\
  (forall read param,
      store_invariant (snd (delete_transaction read param db)) /\
      evolves db (snd (delete_transaction read param db))).
Proof.
  intros H. pose proof (table_reachable_invariant db H) as Hi.
  split; [ exact Hi | ].
  split; [ apply keys_sorted_NoDup, Hi | ].
  split; [ | split; [ | split ] ].
  - intros now a t c descr d db' i E. exact (insert_preserves _ _ _ _ _ _ _ _ _ Hi E).
  - intros operand db' n E. exact (delete_where_preserves _ _ _ _ Hi E).
  - intros now body. split; [ now apply post_preserves | apply post_evolves ].
  - intros read param. split; [ now apply delete_preserves | apply delete_evolves ].
Qed.

Lemma C8_store_invariants_witness :
  store_invariant two_records /\
  NoDup (map id (transactions two_records)) /\
  (forall now a t c descr d db' i,
      insert now a t c descr d two_records = inr (i, db') ->
      store_invariant db' /\ evolves two_records db' /\
      sqlite_sequence two_records < i /\ sqlite_sequence db' = i) /\
  (forall operand db' n,
      delete_where_id operand two_records = inr (n, db') ->
      store_invariant db' /\ evolves two_records db') /\
  (forall now body,
      store_invariant (snd (post_transactions now body two_records)) /\
      evolves two_records (snd (post_transactions now body two_records))) /\
  (forall read param,
      store_invariant (snd (delete_transaction read param two_records)) /\
      evolves two_records (snd (delete_transaction read param two_records))).
Proof.
  exact (C8_store_invariants two_records
           (reachable_table two_records two_records_reachable)).
Defined.

(** ** The order of the listing *)

(** C5, as stated, fails: [created_at] is the clock's second, and of two
    records entered within one second on one date the listing puts first
    the one entered first, not the one entered most recently. *)
Lemma C5_entered_within_one_second :
  let db1 := snd (post_transactions noon
                    (request 50 "expense" "food" "2024-01-01") empty_db) in
  let db2 := snd (post_transactions noon
                    (request 1000 "income" "salary" "2024-01-01") db1) in
  transactions db2 = [tx 1 50 "expense" "food" "2024-01-01" noon;
                      tx 2 1000 "income" "salary" "2024-01-01" noon] /\
  get_transactions db2 = [tx 1 50 "expense" "food" "2024-01-01" noon;
                          tx 2 1000 "income" "salary" "2024-01-01" noon].
Proof. split; reflexivity. Qed.

(** C5 (amended): in every state the table can be in, the listing holds the
    stored records, each as often as the table does, in an order where
    every record stands before all those of an earlier date and, among
    those of its own date, before all those with an earlier [created_at];
    records equal in date and in [created_at] stand as they were entered,
    the one of the lower key first. *)
Theorem C5_listing_is_sorted (db : Database) :
  table_reachable db ->
  Permutation (transactions db) (get_transactions db) /\
  StronglySorted listed_in_order (get_transactions db).
Proof.
  intros H. split; [ apply get_transactions_perm | ].
  destruct (table_reachable_invariant db H) as (Hs & _).
  apply StronglySorted_weaken
    with (R := stable comes_first (fun a b => id a < id b)).
  - intros x y _ _ [Hxy Ht]. split; [ now apply comes_first_listed | ].
    intros Hd Hc. apply Ht. unfold comes_first.
    now rewrite Hd, Hc, !text_compare_refl.
  - apply order_by_stable.
    + apply comes_first_total.
    + apply comes_first_trans.
    + now apply StronglySorted_by_key.
Qed.

Lemma C5_listing_is_sorted_witness :
  Permutation (transactions two_records) (get_transactions two_records) /\
  StronglySorted listed_in_order (get_transactions two_records).
Proof.
  exact (C5_listing_is_sorted two_records
           (reachable_table two_records two_records_reachable)).
Defined.

(** ** Objects as maps *)

Section ObjectFacts.
Context {V : Type}.
Implicit Types (o : JsObject V) (k : string) (v : V).

Lemma own_put o k v k' :
  own (put o k v) k' = if String.eqb k' k then Some v else own o k'.
Proof.
  induction o as [ | [k0 v0] o IH]; simpl.
  - reflexivity.
  - destruct (String.eqb k k0) eqn:E; simpl.
    + apply String.eqb_eq in E. subst k0.
      destruct (String.eqb k' k); reflexivity.
    + destruct (String.eqb k' k0) eqn:E0.
      * apply String.eqb_eq in E0. subst k0.
        rewrite String.eqb_sym in E. now rewrite E.
      * exact IH.
Qed.

Lemma own_None o k : own o k = None <-> ~ In k (map fst o).
Proof.
  induction o as [ | [k0 v0] o IH]; simpl.
  - tauto.
  - destruct (String.eqb k k0) eqn:E.
    + apply String.eqb_eq in E. subst. split; [ discriminate | tauto ].
    + apply String.eqb_neq in E. rewrite IH. split.
      * intros H [H' | H']; [ congruence | tauto ].
      * tauto.
Qed.

Lemma keys_put o k v :
  map fst (put o k v)
  = match own o k with
    | Some _ => map fst o
    | None => map fst o ++ [k]
    end.
Proof.
  induction o as [ | [k0 v0] o IH]; simpl.
  - reflexivity.
  - destruct (String.eqb k k0); simpl; [ reflexivity | ].
    rewrite IH. now destruct (own o k).
Qed.

Lemma keys_put_NoDup o k v : NoDup (map fst o) -> NoDup (map fst (put o k v)).
Proof.
  intros H. rewrite keys_put. destruct (own o k) eqn:E; [ exact H | ].
  apply own_None in E.
  apply (Permutation_NoDup (Permutation_cons_append (map fst o) k)).
  now constructor.
Qed.
End ObjectFacts.

Lemma or_zero_eq (x : Q) : (or_zero x == x)%Q.
Proof.
  unfold or_zero. destruct (Qeq_bool x 0) eqn:E; [ | reflexivity ].
  apply Qeq_bool_iff in E. now rewrite E.
Qed.

Lemma filter_filter_andb {A : Type} (f g : A -> bool) (l : list A) :
  filter f (filter g l) = filter (fun x => g x && f x) l.
Proof.
  induction l as [ | x l IH]; simpl; [ reflexivity | ].
  destruct (g x); simpl; [ destruct (f x) | ]; now rewrite IH.
Qed.

(** *** The category fold *)

Lemma tallies_step (acc : JsObject Q) (l : list Transaction) (t : Transaction) :
  tallies acc l -> tallies (add_amount acc t) (l ++ [t]).
Proof.
  intros (Hnd & Hown).
  assert (E : exists v,
             add_amount acc t = put acc (category t) v /\
             (v == match own acc (category t) with Some x => x | None => 0 end
                   + amount t)%Q).
  { unfold add_amount. destruct (own acc (category t)) as [x | ];
      eexists; (split; [ reflexivity | ]); [ now rewrite or_zero_eq | reflexivity ]. }
  destruct E as (v & -> & Hv).
  split; [ now apply keys_put_NoDup | ].
  intros c. rewrite own_put. specialize (Hown c).
  assert (Hf : filter (has_category c) (l ++ [t])
               = filter (has_category c) l
                 ++ (if String.eqb (category t) c then [t] else [])).
  { rewrite filter_app. simpl. unfold has_category.
    now destruct (String.eqb (category t) c). }
  destruct (String.eqb c (category t)) eqn:Ec.
  - apply String.eqb_eq in Ec. subst c.
    split; [ exists t; split; [ apply in_or_app; right; now left | reflexivity ] | ].
    rewrite Hf, String.eqb_refl, sum_amounts_app, Hv. simpl.
    destruct (own acc (category t)) as [x | ].
    + destruct Hown as [_ Hx]. rewrite Hx. ring.
    + replace (filter (has_category (category t)) l) with (@nil Transaction).
      { simpl. ring. }
      symmetry. apply filter_none. intros r Hr. specialize (Hown r Hr).
      unfold has_category. now apply String.eqb_neq.
  - rewrite String.eqb_sym in Ec.
    destruct (own acc c) as [x | ].
    + destruct Hown as [(r & Hr & Hc) Hx]. split.
      { exists r. split; [ apply in_or_app; now left | exact Hc ]. }
      rewrite Hf, Ec, app_nil_r. exact Hx.
    + intros r Hr. apply in_app_or in Hr. destruct Hr as [Hr | [<- | []]].
      { now apply Hown. }
      now apply String.eqb_neq in Ec.
Qed.

Lemma tallies_fold (l : list Transaction) :
  tallies (fold_left add_amount l []) l.
Proof.
  induction l as [ | t l IH] using rev_ind.
  - split; [ constructor | intros c r [] ].
  - rewrite fold_left_app. simpl. now apply tallies_step.
Qed.

(** On keys foreign to the prototype, the client's fold is the fold above. *)
Lemma own_as_number (acc : JsObject Q) (k : string) :
  own (map as_number acc) k = option_map JsNumber (own acc k).
Proof.
  induction acc as [ | [k0 v0] acc IH]; simpl; [ reflexivity | ].
  destruct (String.eqb k k0); [ reflexivity | exact IH ].
Qed.

Lemma put_as_number (acc : JsObject Q) (k : string) (x : Q) :
  put (map as_number acc) k (JsNumber x) = map as_number (put acc k x).
Proof.
  induction acc as [ | [k0 v0] acc IH]; simpl; [ reflexivity | ].
  destruct (String.eqb k k0); simpl; [ reflexivity | now rewrite IH ].
Qed.

Lemma add_to_category_plain (acc : JsObject Q) (t : Transaction) :
  inherited (category t) = false ->
  add_to_category (map as_number acc) t = map as_number (add_amount acc t).
Proof.
  intros Hi. unfold add_to_category, add_amount, get.
  rewrite own_as_number.
  destruct (own acc (category t)) as [x | ]; simpl.
  - apply put_as_number.
  - rewrite Hi. apply put_as_number.
Qed.

Lemma fold_add_to_category_plain (l : list Transaction) (acc : JsObject Q) :
  Forall (fun t => inherited (category t) = false) l ->
  fold_left add_to_category l (map as_number acc)
  = map as_number (fold_left add_amount l acc).
Proof.
  revert acc. induction l as [ | t l IH]; intros acc Hl; simpl.
  - reflexivity.
  - inversion Hl; subst. rewrite add_to_category_plain by assumption.
    now apply IH.
Qed.

(** *** The breakdown by category *)

Lemma expenses_listed (db : Database) (r : Transaction) :
  In r (filter (has_type "expense") (get_transactions db)) <->
  In r (transactions db) /\ type r = "expense"%string.
Proof.
  rewrite filter_In. unfold has_type. rewrite String.eqb_eq.
  split; intros [H1 H2]; (split; [ | exact H2 ]).
  - exact (Permutation_in _ (Permutation_sym (get_transactions_perm db)) H1).
  - exact (Permutation_in _ (get_transactions_perm db) H1).
Qed.


(** A category named like a property of [Object.prototype] is not summed:
    the slot starts from the inherited function, and for [__proto__] the
    assignment is dropped altogether. *)
Example category_found_on_the_prototype :
  categoryData [tx 1 5 "expense" "constructor" "2024-01-01" noon]
  = [("constructor"%string, JsString)] /\
  categoryData [tx 1 5 "expense" "__proto__" "2024-01-01" noon] = [].
Proof. split; reflexivity. Qed.



(** *** The grouping by day *)

Lemma iso_not_inherited (d : string) :
  iso_date_shape d = true -> inherited d = false.
Proof.
  intros H. destruct (inherited d) eqn:E; [ | reflexivity ].
  unfold inherited in E. apply existsb_exists in E.
  destruct E as (k & Hk & Heq). apply String.eqb_eq in Heq. subst k.
  simpl in Hk.
  repeat (destruct Hk as [<- | Hk]; [ vm_compute in H; discriminate H | ]).
  destruct Hk.
Qed.

Lemma add_to_group_plain (g : JsObject (list Transaction)) (t : Transaction) :
  inherited (date t) = false ->
  add_to_group (Some g) t = Some (add_member g t).
Proof.
  intros Hi. unfold add_to_group, add_member, get.
  destruct (own g (date t)); [ reflexivity | ]. now rewrite Hi.
Qed.

Lemma grouped_plain (l : list Transaction) (g : JsObject (list Transaction)) :
  Forall (fun t => inherited (date t) = false) l ->
  fold_left add_to_group l (Some g) = Some (fold_left add_member l g).
Proof.
  revert g. induction l as [ | t l IH]; intros g Hl; simpl.
  - reflexivity.
  - inversion Hl; subst.
    change (fold_left add_to_group l (add_to_group (Some g) t)
            = Some (fold_left add_member l (add_member g t))).
    rewrite add_to_group_plain by assumption. now apply IH.
Qed.

Lemma members_of_snoc (d : string) (l : list Transaction) (t : Transaction) :
  members_of d (l ++ [t])
  = if String.eqb (date t) d
    then Some (match members_of d l with Some m => m | None => [] end ++ [t])
    else members_of d l.
Proof.
  unfold members_of. rewrite filter_app. simpl. unfold has_date at 2.
  destruct (String.eqb (date t) d).
  - destruct (filter (has_date d) l); reflexivity.
  - now rewrite app_nil_r.
Qed.

Lemma groups_of_step (g : JsObject (list Transaction)) (l : list Transaction)
    (t : Transaction) :
  groups_of g l -> groups_of (add_member g t) (l ++ [t]).
Proof.
  intros [Hnd Hown]. unfold add_member.
  assert (E : exists v,
             match own g (date t) with
             | Some members => put g (date t) (members ++ [t])
             | None => put g (date t) [t]
             end = put g (date t) v /\
             v = match members_of (date t) l with Some m => m | None => [] end
                 ++ [t]).
  { rewrite <- (Hown (date t)).
    destruct (own g (date t)); eexists; split; reflexivity. }
  destruct E as (v & -> & Hv).
  split; [ now apply keys_put_NoDup | ].
  intros d. rewrite own_put, members_of_snoc, (String.eqb_sym d).
  destruct (String.eqb (date t) d) eqn:Ed.
  - apply String.eqb_eq in Ed. subst d. now rewrite Hv.
  - apply Hown.
Qed.

Lemma groups_of_fold (l : list Transaction) :
  groups_of (fold_left add_member l []) l.
Proof.
  induction l as [ | t l IH] using rev_ind.
  - split; [ constructor | reflexivity ].
  - rewrite fold_left_app. simpl. now apply groups_of_step.
Qed.

Lemma members_of_filter (d : string) (l : list Transaction) :
  match members_of d l with Some m => m | None => [] end = filter (has_date d) l.
Proof. unfold members_of. now destruct (filter (has_date d) l). Qed.

Lemma members_of_Some (l : list Transaction) (t : Transaction) :
  In t l -> members_of (date t) l <> None.
Proof.
  intros Ht. unfold members_of.
  destruct (filter (has_date (date t)) l) eqn:E; [ | discriminate ].
  exfalso. assert (H : In t (filter (has_date (date t)) l)).
  { apply filter_In. split; [ exact Ht | apply String.eqb_refl ]. }
  now rewrite E in H.
Qed.

Lemma members_of_dated (d : string) (l : list Transaction) :
  members_of d l <> None -> exists t, In t l /\ date t = d.
Proof.
  unfold members_of. destruct (filter (has_date d) l) as [ | t m] eqn:E;
    [ congruence | ].
  intros _. exists t.
  assert (H : In t (filter (has_date d) l)) by (rewrite E; now left).
  apply filter_In in H. destruct H as [H1 H2].
  now apply String.eqb_eq in H2.
Qed.

(** The figure of a day adds the amounts of its expense records as they
    stand in the group. *)
Lemma day_expense_in_order (members : list Transaction) :
  day_expense members
  = sum_in_order (map amount (filter (has_type "expense") members)).
Proof.
  unfold day_expense, sum_in_order.
  change (fun t : Transaction => String.eqb (type t) "expense")
    with (has_type "expense").
  generalize (filter (has_type "expense") members) 0%Q.
  induction l as [ | t l IH]; intros s; simpl; [ reflexivity | apply IH ].
Qed.

Lemma valid_calendar_date_shape (d : string) :
  valid_calendar_date d = true -> iso_date_shape d = true.
Proof. unfold valid_calendar_date. intros H. now apply andb_true_iff in H. Qed.

Lemma StronglySorted_strict {A : Type} (R S : A -> A -> Prop) (l : list A) :
  (forall x y, In x l -> In y l -> x <> y -> R x y -> S x y) ->
  NoDup l -> StronglySorted R l -> StronglySorted S l.
Proof.
  intros H Hnd Hs. induction Hs as [ | x l Hs IH Hx].
  - constructor.
  - inversion Hnd as [ | ? ? Hnx Hnd']; subst. constructor.
    + apply IH; [ | exact Hnd' ]. intros y z Hy Hz. apply H; now right.
    + rewrite Forall_forall in *. intros y Hy.
      apply H; [ now left | now right | congruence | now apply Hx ].
Qed.

Lemma StronglySorted_map {A B : Type} (f : A -> B) (R : B -> B -> Prop)
    (l : list A) :
  StronglySorted (fun x y => R (f x) (f y)) l -> StronglySorted R (map f l).
Proof.
  induction 1 as [ | x l _ IH Hx]; simpl; constructor; auto.
  rewrite Forall_forall in *. intros y Hy.
  apply in_map_iff in Hy. destruct Hy as (z & <- & Hz). now apply Hx.
Qed.

Section DayViewFacts.
Variable localeCompare : string -> string -> comparison.

(** On dates of the shape [YYYY-MM-DD] the collation compares digits at
    the first difference, as the bytewise order does. *)
Hypothesis localeCompare_iso :
  forall a b, iso_date_shape a = true -> iso_date_shape b = true ->
              localeCompare a b = text_compare a b.

Lemma by_locale_desc_iso (a b : string) :
  iso_date_shape a = true -> iso_date_shape b = true ->
  (by_locale_desc localeCompare a b = true <-> text_compare a b <> Lt).
Proof.
  intros Ha Hb. unfold by_locale_desc.
  rewrite (localeCompare_iso b a Hb Ha).
  destruct (text_compare b a) eqn:E.
  - apply text_compare_eq in E. subst. rewrite text_compare_refl.
    split; [ discriminate | reflexivity ].
  - apply text_compare_gt in E. rewrite E. split; [ discriminate | reflexivity ].
  - apply text_compare_gt in E. rewrite E. split; [ discriminate | congruence ].
Qed.

Lemma sorted_keys (keys : list string) :
  Forall (fun d => iso_date_shape d = true) keys -> NoDup keys ->
  StronglySorted (fun a b => text_compare a b = Gt)
    (order_by (by_locale_desc localeCompare) keys).
Proof.
  intros Hiso Hnd.
  pose proof (order_by_perm (by_locale_desc localeCompare) keys) as Hp.
  assert (Hiso' : Forall (fun d => iso_date_shape d = true)
                    (order_by (by_locale_desc localeCompare) keys)).
  { exact (Permutation_Forall Hp Hiso). }
  apply StronglySorted_strict with (R := holds (by_locale_desc localeCompare)).
  - rewrite Forall_forall in Hiso'. intros x y Hx Hy Hne Hle.
    apply by_locale_desc_iso in Hle; auto.
    destruct (text_compare x y) eqn:E; try congruence.
    apply text_compare_eq in E. congruence.
  - exact (Permutation_NoDup Hp Hnd).
  - apply order_by_sorted with (P := fun d => iso_date_shape d = true).
    + intros x y Hx Hy Hf.
      apply by_locale_desc_iso; auto.
      intros E. apply text_compare_gt in E.
      assert (Hxy : by_locale_desc localeCompare x y = true).
      { apply by_locale_desc_iso; auto. congruence. }
      congruence.
    + intros x y z Hx Hy Hz Hxy Hyz.
      apply by_locale_desc_iso in Hxy, Hyz; auto.
      apply by_locale_desc_iso; auto.
      eapply text_compare_ge_trans; eauto.
    + exact Hiso.
Qed.
End DayViewFacts.


(** So does a stored date of the shape [YYYY-MM-DD] that is no day of the
    calendar, with a reading of dates that turns it down as date-fns does:
    the records are grouped, and the header of the group throws. *)
Example date_that_is_no_day :
  post_transactions noon (request 5 "expense" "food" "2024-13-45") empty_db
  = (PostOk 1,
     {| transactions := [tx 1 5 "expense" "food" "2024-13-45" noon];
        sqlite_sequence := 1 |}) /\
  iso_date_shape "2024-13-45" = true /\
  grouped [tx 1 5 "expense" "food" "2024-13-45" noon]
  = Some [("2024-13-45"%string, [tx 1 5 "expense" "food" "2024-13-45" noon])] /\
  daily_breakdown text_compare valid_calendar_date
    [tx 1 5 "expense" "food" "2024-13-45" noon]
  = None.
Proof. repeat split. Qed.



(** The day view of the sample table, computed. *)
Example daily_breakdown_two_days :
  daily_breakdown text_compare valid_calendar_date (get_transactions two_days)
  = Some [ {| day_date := "2024-01-02"; expense_total := (0 + 20)%Q;
              records := [tx 2 1000 "income" "salary" "2024-01-02" noon;
                          tx 3 20 "expense" "bus" "2024-01-02" noon] |};
           {| day_date := "2024-01-01"; expense_total := (0 + 50)%Q;
              records := [tx 1 50 "expense" "food" "2024-01-01" noon] |} ].
Proof. reflexivity. Qed.


(** ** The example of the specification

    Two appends on one day, then the derived views, then the income record
    deleted. *)
Example ledger_walkthrough :
  let db1 := snd (post_transactions "2024-01-01 09:00:00"
                    (request 50 "expense" "food" "2024-01-01") empty_db) in
  let db2 := snd (post_transactions "2024-01-01 09:00:05"
                    (request 1000 "income" "salary" "2024-01-01") db1) in
  let db3 := snd (delete_transaction decimal_integer "2" db2) in
  get_stats db2 = {| total_income := Some 1000%Q; total_expense := Some 50%Q |} /\
  map id (get_transactions db2) = [2; 1] /\
  categoryData (get_transactions db2) = [("food"%string, JsNumber 50)] /\
  option_map (map expense_total)
    (daily_breakdown text_compare valid_calendar_date (get_transactions db2))
  = Some [50%Q] /\
  get_stats db3 = {| total_income := Some 0%Q; total_expense := Some 50%Q |}.
Proof. repeat split. Qed.

(** * Further properties of the server *)

Lemma invariant_counter_is_largest (db : Database) :
  store_invariant db ->
  Z.max (sqlite_sequence db) (largest_rowid (transactions db)) = sqlite_sequence db.
Proof.
  intros (_ & Hb & _ & Hq). apply Z.max_l.
  induction (transactions db) as [ | r rows IH]; simpl; [ lia | ].
  inversion Hb; subst. specialize (IH ltac:(assumption)). lia.
Qed.

(** The answer of a [POST], read off the three tests it goes through. *)
Lemma post_response (now : string) (body : Body) (db : Database) :
  fst (post_transactions now body db)
  = if missing_required body then PostMissingFields
    else if negb (type_allowed body) then PostFailed
    else if max_rowid <=? Z.max (sqlite_sequence db) (largest_rowid (transactions db))
    then PostFailed
    else PostOk (Z.max (sqlite_sequence db) (largest_rowid (transactions db)) + 1).
Proof.
  unfold post_transactions, missing_required, type_allowed.
  destruct (truthy_number (req_amount body)); [ | reflexivity ].
  destruct (truthy_string (req_type body)) as [t | ] eqn:Et; [ | reflexivity ].
  destruct (truthy_string (req_category body)); [ | reflexivity ].
  destruct (truthy_string (req_date body)); [ | reflexivity ].
  rewrite (truthy_string_val _ _ Et). simpl. unfold insert.
  destruct (check_type t); simpl; [ | reflexivity ].
  destruct (max_rowid <=? _); reflexivity.
Qed.

(** X2: in a reachable state an accepted [POST] returns the counter of keys
    plus one and moves the counter there; and a [DELETE] beforehand,
    whatever it removes, does not change the answer: a key that was handed
    out is never handed out again. *)
Theorem X2_keys_are_never_reused (now : string) (body : Body) (db : Database) :
  reachable db ->
  (forall i db', post_transactions now body db = (PostOk i, db') ->
                 i = sqlite_sequence db + 1 /\ sqlite_sequence db' = i) /\
  (forall read param,
      fst (post_transactions now body (snd (delete_transaction read param db)))
      = fst (post_transactions now body db)).
Proof.
  intros Hr. pose proof (reachable_invariant db Hr) as Hi.
  pose proof (invariant_counter_is_largest db Hi) as Hmax. split.
  - intros i db' E.
    destruct (post_inversion now body db)
      as [(resp & E' & Hno) | (a & t & c & d & _ & _ & _ & _ & _ & _ & E')].
    + rewrite E in E'. injection E' as <- _. now destruct (Hno i).
    + cbv zeta in E'. rewrite E in E'. injection E' as -> ->.
      rewrite Hmax. auto.
  - intros read param. rewrite !post_response.
    rewrite (invariant_counter_is_largest _ (delete_preserves read param db Hi)).
    rewrite Hmax. reflexivity.
Qed.

Lemma X2_keys_are_never_reused_witness :
  (forall i db',
      post_transactions noon (request 20 "expense" "bus" "2024-01-03") two_records
      = (PostOk i, db') ->
      i = sqlite_sequence two_records + 1 /\ sqlite_sequence db' = i) /\
  (forall read param,
      fst (post_transactions noon (request 20 "expense" "bus" "2024-01-03")
             (snd (delete_transaction read param two_records)))
      = fst (post_transactions noon (request 20 "expense" "bus" "2024-01-03")
               two_records)).
Proof.
  exact (X2_keys_are_never_reused noon (request 20 "expense" "bus" "2024-01-03")
           two_records two_records_reachable).
Defined.

(** X3: deleting the record a [POST] has just created, by the key the
    [POST] returned, gives back the table as it was before; only the
    counter of keys stays advanced. *)
Theorem X3_post_then_delete (read : string -> option Z) (param now : string)
    (body : Body) (db db1 : Database) (i : Z) :
  post_transactions now body db = (PostOk i, db1) ->
  read param = Some i ->
  delete_transaction read param db1
  = (DeleteOk, {| transactions := transactions db; sqlite_sequence := i |}).
Proof.
  intros E Hread.
  destruct (post_inversion now body db)
    as [(resp & E' & Hno) | (a & t & c & d & _ & _ & _ & _ & _ & _ & E')].
  - rewrite E in E'. injection E' as <- _. now destruct (Hno i).
  - cbv zeta in E'. rewrite E in E'. injection E' as -> ->.
    rewrite delete_transaction_eq, Hread. simpl. f_equal. f_equal.
    rewrite filter_app. simpl. rewrite Z.eqb_refl. simpl. rewrite app_nil_r.
    apply filter_all. intros r Hr. apply largest_rowid_bound in Hr.
    apply negb_true_iff, Z.eqb_neq. lia.
Qed.

Lemma X3_post_then_delete_witness :
  delete_transaction decimal_integer "1"
    {| transactions := [tx 1 50 "expense" "food" "2024-01-01" noon];
       sqlite_sequence := 1 |}
  = (DeleteOk, {| transactions := transactions empty_db; sqlite_sequence := 1 |}).
Proof.
  exact (X3_post_then_delete decimal_integer "1" noon
           (request 50 "expense" "food" "2024-01-01") empty_db _ 1
           eq_refl eq_refl).
Defined.

(** X4: two [DELETE]s leave the same database whichever comes first. *)
Theorem X4_deletes_commute (read1 read2 : string -> option Z) (p1 p2 : string)
    (db : Database) :
  snd (delete_transaction read2 p2 (snd (delete_transaction read1 p1 db)))
  = snd (delete_transaction read1 p1 (snd (delete_transaction read2 p2 db))).
Proof.
  rewrite !delete_transaction_eq. simpl. f_equal.
  rewrite !filter_filter_andb. apply filter_ext. intros r. apply andb_comm.
Qed.

(** *** Sorting and filtering *)

Section OrderByFilter.
Context {A : Type} (leb : A -> A -> bool) (f : A -> bool).

Hypothesis leb_total : forall x y, leb x y = false -> leb y x = true.
Hypothesis leb_trans :
  forall x y z, leb x y = true -> leb y z = true -> leb x z = true.

Lemma insert_sorted_dropped (x : A) (l : list A) :
  f x = false -> filter f (insert_sorted leb x l) = filter f l.
Proof.
  intros Hx. induction l as [ | y l IH]; simpl.
  - now rewrite Hx.
  - destruct (leb y x); simpl.
    + now rewrite IH.
    + now rewrite Hx.
Qed.

Lemma insert_sorted_front (x : A) (l : list A) :
  Forall (fun z => leb z x = false) l -> insert_sorted leb x l = x :: l.
Proof.
  destruct l as [ | z l]; simpl; [ reflexivity | ].
  intros H. inversion H as [ | ? ? Hz _]; subst. now rewrite Hz.
Qed.

Lemma insert_sorted_kept (x : A) (l : list A) :
  StronglySorted (holds leb) l -> f x = true ->
  filter f (insert_sorted leb x l) = insert_sorted leb x (filter f l).
Proof.
  intros Hs Hx. induction Hs as [ | y l Hs IH Hy]; simpl.
  - now rewrite Hx.
  - destruct (leb y x) eqn:E; simpl.
    + destruct (f y); simpl; rewrite IH; [ now rewrite E | reflexivity ].
    + rewrite Hx. symmetry.
      change (insert_sorted leb x (filter f (y :: l)) = x :: filter f (y :: l)).
      apply insert_sorted_front. apply Forall_forall. intros z Hz.
      apply filter_In in Hz. destruct Hz as [[<- | Hz] _]; [ exact E | ].
      rewrite Forall_forall in Hy. specialize (Hy z Hz).
      destruct (leb z x) eqn:Ez; [ | reflexivity ].
      pose proof (leb_trans y z x Hy Ez) as Hyx. congruence.
Qed.

Lemma order_by_acc_filter (l acc : list A) :
  StronglySorted (holds leb) acc ->
  filter f (fold_left (fun s x => insert_sorted leb x s) l acc)
  = fold_left (fun s x => insert_sorted leb x s) (filter f l) (filter f acc).
Proof.
  revert acc. induction l as [ | x l IH]; intros acc Hs; simpl.
  - reflexivity.
  - rewrite IH.
    + destruct (f x) eqn:Hx; simpl.
      * now rewrite insert_sorted_kept.
      * now rewrite insert_sorted_dropped.
    + apply insert_sorted_sorted with (P := fun _ => True); auto.
      * intros ? ? ? _ _ _. apply leb_trans.
      * apply Forall_forall. auto.
Qed.

Lemma order_by_filter (l : list A) :
  filter f (order_by leb l) = order_by leb (filter f l).
Proof. apply (order_by_acc_filter l []). constructor. Qed.
End OrderByFilter.

(** X5: after a [DELETE] the listing is the former listing without the
    records the statement removed; the records that stay keep their
    places relative to each other. *)
Theorem X5_listing_after_delete (read : string -> option Z) (param : string)
    (db : Database) :
  get_transactions (snd (delete_transaction read param db))
  = filter (fun r => negb match read param with
                          | Some n => id r =? n
                          | None => false
                          end) (get_transactions db).
Proof.
  rewrite delete_transaction_eq. unfold get_transactions. simpl.
  symmetry. apply order_by_filter.
  - apply comes_first_total.
  - apply comes_first_trans.
Qed.

(** * Further properties of the client *)

(** ** The category panel *)

Lemma categoryData_plain (db : Database) :
  (forall r, In r (transactions db) -> type r = "expense"%string ->
             inherited (category r) = false) ->
  exists acc : JsObject Q,
    categoryData (get_transactions db) = map as_number acc.
Proof.
  intros Hkeys. eexists. apply (fold_add_to_category_plain _ []).
  apply Forall_forall. intros r Hr. apply expenses_listed in Hr.
  now apply Hkeys.
Qed.

(** X9: when no expense category names a property of [Object.prototype],
    the category panel shows the entries of the breakdown, each once, from
    the largest sum down to the smallest. *)
Theorem X9_category_details_sorted (db : Database) :
  (forall r, In r (transactions db) -> type r = "expense"%string ->
             inherited (category r) = false) ->
  Permutation (categoryData (get_transactions db))
    (category_details (categoryData (get_transactions db))) /\
  StronglySorted value_ge
    (category_details (categoryData (get_transactions db))).
Proof.
  intros Hkeys. destruct (categoryData_plain db Hkeys) as (acc & ->).
  unfold category_details.
  pose proof (order_by_perm by_value_desc (map as_number acc)) as Hp.
  set (P := fun e : string * JsValue => exists x, snd e = JsNumber x).
  assert (HP : Forall P (map as_number acc)).
  { apply Forall_forall. intros e He. apply in_map_iff in He.
    destruct He as ([k x] & <- & _). now exists x. }
  split; [ exact Hp | ].
  apply StronglySorted_weaken with (R := holds by_value_desc).
  - pose proof (Permutation_Forall Hp HP) as HP'.
    rewrite Forall_forall in HP'. intros a b Ha Hb.
    destruct (HP' a Ha) as (x & Ex), (HP' b Hb) as (y & Ey).
    unfold holds, by_value_desc, value_ge. rewrite Ex, Ey.
    apply Qle_bool_imp_le.
  - apply order_by_sorted with (P := P); [ | | exact HP ].
    + intros a b (x & Ex) (y & Ey). unfold by_value_desc. rewrite Ex, Ey.
      intros H. apply Qle_bool_iff. apply Qlt_le_weak, Qnot_le_lt.
      intros Hle. apply Qle_bool_iff in Hle. congruence.
    + intros a b c (x & Ex) (y & Ey) (z & Ez). unfold by_value_desc.
      rewrite Ex, Ey, Ez. rewrite !Qle_bool_iff. intros H1 H2.
      now apply Qle_trans with y.
Qed.

Lemma X9_category_details_sorted_witness :
  Permutation (categoryData (get_transactions two_days))
    (category_details (categoryData (get_transactions two_days))) /\
  StronglySorted value_ge
    (category_details (categoryData (get_transactions two_days))).
Proof.
  apply (X9_category_details_sorted two_days).
  intros r [<- | [<- | [<- | []]]] _; reflexivity.
Defined.

(** ** The day view and the listing *)

Lemma get_transactions_by_date (db : Database) :
  StronglySorted date_ge (get_transactions db).
Proof.
  apply StronglySorted_weaken with (R := holds comes_first).
  - intros a b _ _ H. apply comes_first_listed in H. unfold date_ge.
    destruct H as [H | [H _]]; [ congruence | ].
    rewrite H, text_compare_refl. discriminate.
  - apply order_by_sorted with (P := fun _ => True).
    + intros x y _ _. apply comes_first_total.
    + intros x y z _ _ _. apply comes_first_trans.
    + apply Forall_forall. auto.
Qed.

Lemma StronglySorted_filter {A : Type} (R : A -> A -> Prop) (f : A -> bool)
    (l : list A) :
  StronglySorted R l -> StronglySorted R (filter f l).
Proof.
  induction 1 as [ | x l _ IH Hx]; simpl; [ constructor | ].
  destruct (f x); [ | exact IH ]. constructor; [ exact IH | ].
  rewrite Forall_forall in *. intros y Hy. apply filter_In in Hy. now apply Hx.
Qed.

(** In a listing sorted by date, the records of the latest date come
    first. *)
Lemma latest_date_first (d : string) (l : list Transaction) :
  StronglySorted date_ge l ->
  (forall t, In t l -> text_compare d (date t) <> Lt) ->
  l = filter (has_date d) l ++ filter (fun t => negb (has_date d t)) l.
Proof.
  intros Hs Hd. induction Hs as [ | a l Hs IH Ha]; simpl; [ reflexivity | ].
  destruct (has_date d a) eqn:E; simpl; unfold has_date in E.
  - f_equal. apply IH. intros t Ht. apply Hd. now right.
  - assert (Hnone : forall t, In t l -> has_date d t = false).
    { intros t Ht. unfold has_date. apply String.eqb_neq. intros Et.
      rewrite Forall_forall in Ha. specialize (Ha t Ht). unfold date_ge in Ha.
      rewrite Et in Ha. specialize (Hd a (or_introl eq_refl)).
      destruct (text_compare d (date a)) eqn:C; try congruence.
      + apply text_compare_eq in C. apply String.eqb_neq in E. congruence.
      + apply text_compare_gt in C. congruence. }
    rewrite (filter_none (has_date d) l Hnone). simpl. f_equal.
    symmetry. apply filter_all. intros t Ht. now rewrite (Hnone t Ht).
Qed.

Lemma groups_in_listing_order (keys : list string) :
  StronglySorted (fun a b => text_compare a b = Gt) keys ->
  forall l : list Transaction,
    StronglySorted date_ge l ->
    (forall t, In t l -> In (date t) keys) ->
    List.concat (map (fun d => filter (has_date d) l) keys) = l.
Proof.
  induction 1 as [ | d ks Hks IH Hd]; intros l Hs Hin; simpl.
  - destruct l as [ | t l]; [ reflexivity | ]. destruct (Hin t (or_introl eq_refl)).
  - rewrite Forall_forall in Hd.
    set (rest := filter (fun t => negb (has_date d t)) l).
    assert (Hrest : forall d', In d' ks ->
                               filter (has_date d') l = filter (has_date d') rest).
    { intros d' Hd'. unfold rest. rewrite filter_filter_andb.
      apply filter_ext. intros t. unfold has_date.
      destruct (String.eqb (date t) d') eqn:E; [ | now rewrite andb_false_r ].
      apply String.eqb_eq in E.
      assert (Hne : String.eqb (date t) d = false).
      { apply String.eqb_neq. intros Et. specialize (Hd d' Hd').
        rewrite <- E, Et, text_compare_refl in Hd. discriminate. }
      now rewrite Hne. }
    rewrite (map_ext_in _ (fun d' => filter (has_date d') rest) ks Hrest).
    rewrite IH.
    + symmetry. apply latest_date_first; [ exact Hs | ].
      intros t Ht. destruct (Hin t Ht) as [<- | Hk].
      * rewrite text_compare_refl. discriminate.
      * rewrite (Hd _ Hk). discriminate.
    + now apply StronglySorted_filter.
    + intros t Ht. apply filter_In in Ht. destruct Ht as [Ht Hne].
      destruct (Hin t Ht) as [E | Hk]; [ | exact Hk ].
      unfold has_date in Hne. rewrite <- E, String.eqb_refl in Hne. discriminate.
Qed.

Section DayViewShape.
Variable localeCompare : string -> string -> comparison.
Variable isValid : string -> bool.
Variable db : Database.

Hypothesis localeCompare_iso :
  forall a b, iso_date_shape a = true -> iso_date_shape b = true ->
              localeCompare a b = text_compare a b.
Hypothesis isValid_calendar :
  forall d, valid_calendar_date d = true -> isValid d = true.
Hypothesis dates_valid :
  forall r, In r (transactions db) -> valid_calendar_date (date r) = true.

(** The day view, given by the dates it shows. *)
Lemma daily_breakdown_shape :
  exists keys,
    daily_breakdown localeCompare isValid (get_transactions db)
    = Some (map (day_of (get_transactions db)) keys) /\
    StronglySorted (fun a b => text_compare a b = Gt) keys /\
    (forall t, In t (get_transactions db) -> In (date t) keys).
Proof.
  set (L := get_transactions db).
  assert (HL : forall t, In t L -> valid_calendar_date (date t) = true).
  { intros t Ht. apply dates_valid.
    exact (Permutation_in _ (Permutation_sym (get_transactions_perm db)) Ht). }
  set (g := fold_left add_member L []).
  assert (Hg : grouped L = Some g).
  { apply grouped_plain. apply Forall_forall. intros t Ht.
    now apply iso_not_inherited, valid_calendar_date_shape, HL. }
  destruct (groups_of_fold L) as [Hnd Hown]. fold g in Hnd, Hown.
  assert (Hkeys : forall d, members_of d L <> None -> In d (map fst g)).
  { intros d Hne. rewrite <- Hown in Hne.
    destruct (in_dec string_dec d (map fst g)) as [ | Hn]; auto.
    apply own_None in Hn. congruence. }
  assert (Hkdate : forall d, In d (map fst g) -> valid_calendar_date d = true).
  { intros d Hd.
    assert (Hne : own g d <> None) by (intros E; now apply own_None in E).
    rewrite Hown in Hne. apply members_of_dated in Hne.
    destruct Hne as (t & Ht & <-). now apply HL. }
  assert (Hkiso : Forall (fun d => iso_date_shape d = true) (map fst g)).
  { apply Forall_forall. intros d Hd.
    now apply valid_calendar_date_shape, Hkdate. }
  set (keys := order_by (by_locale_desc localeCompare) (map fst g)).
  pose proof (order_by_perm (by_locale_desc localeCompare) (map fst g)) as Hp.
  fold keys in Hp.
  assert (Hread : forallb isValid keys = true).
  { apply forallb_forall. intros d Hd. apply isValid_calendar, Hkdate.
    exact (Permutation_in _ (Permutation_sym Hp) Hd). }
  exists keys. split; [ | split ].
  - unfold daily_breakdown. rewrite Hg. fold keys. rewrite Hread.
    f_equal. apply map_ext. intros d.
    unfold day_of. now rewrite Hown, members_of_filter.
  - now apply sorted_keys.
  - intros t Ht. apply (Permutation_in _ Hp).
    now apply Hkeys, members_of_Some.
Qed.

Lemma day_view_in_listing_order :
  exists days,
    daily_breakdown localeCompare isValid (get_transactions db) = Some days /\
    List.concat (map records days) = get_transactions db.
Proof.
  destruct daily_breakdown_shape as (keys & E & Hs & Hin).
  eexists. split; [ exact E | ].
  rewrite map_map. simpl.
  apply groups_in_listing_order; auto. apply get_transactions_by_date.
Qed.
End DayViewShape.



(** ** The handlers *)

Section HandlerFacts.
Variable Number : string -> option Q.
Variable read : string -> option Z.

(** The two ways [handleSubmit] can end. *)
Lemma handleSubmit_cases (now today : string) (st : AppState) (db : Database) :
  handleSubmit Number now today st db = (st, db) \/
  exists x r,
    form_amount (formData st) <> EmptyString /\
    Number (form_amount (formData st)) = Some x /\ ~ (x == 0)%Q /\
    amount r = x /\ type r = type_name (form_type (formData st)) /\
    category r = form_category (formData st) /\
    description r = Some (form_description (formData st)) /\
    date r = form_date (formData st) /\ created_at r = now /\
    (forall r', In r' (transactions db) -> id r' < id r) /\
    handleSubmit Number now today st db
    = ({| app_transactions :=
            get_transactions {| transactions := transactions db ++ [r];
                                sqlite_sequence := id r |};
          app_stats :=
            get_stats {| transactions := transactions db ++ [r];
                         sqlite_sequence := id r |};
          isAdding := false;
          deletingTransaction := deletingTransaction st;
          deleteConfirmText := deleteConfirmText st;
          formData := blank_form today |},
       {| transactions := transactions db ++ [r]; sqlite_sequence := id r |}).
Proof.
  unfold handleSubmit.
  destruct (String.eqb (form_amount (formData st)) EmptyString) eqn:Ea;
    [ now left | ].
  destruct (Number (form_amount (formData st))) as [x | ] eqn:En; [ | now left ].
  destruct (post_inversion now (submitted_body (formData st) x) db)
    as [(resp & E & Hno) | (a & t & c & d & Ta & Tt & Tc & Td & _ & _ & E)].
  - left. rewrite E. destruct resp; try reflexivity. now destruct (Hno rowid).
  - right. cbv zeta in E. rewrite E.
    apply truthy_number_val in Ta. destruct Ta as [Ta Hx].
    apply truthy_string_val in Tt, Tc, Td. simpl in Ta, Tt, Tc, Td.
    injection Ta as <-. injection Tt as <-. injection Tc as <-. injection Td as <-.
    exists x,
      {| id := Z.max (sqlite_sequence db) (largest_rowid (transactions db)) + 1;
         amount := x; type := type_name (form_type (formData st));
         category := form_category (formData st);
         description := Some (form_description (formData st));
         date := form_date (formData st); created_at := now |}.
    apply String.eqb_neq in Ea.
    repeat (split; [ try reflexivity; try assumption | ]); [ | reflexivity ].
    intros r' Hr'. simpl. apply largest_rowid_bound in Hr'. lia.
Qed.

(** The three ways [handleDelete] can end. *)
Lemma handleDelete_cases (st : AppState) (db : Database) :
  match deletingTransaction st with
  | None => handleDelete read st db = (st, db)
  | Some t =>
      if String.eqb (deleteConfirmText st) (category t)
      then
        handleDelete read st db
        = (fetchData (snd (delete_transaction read (number_to_string (id t)) db))
             (set_deleting st None EmptyString),
           snd (delete_transaction read (number_to_string (id t)) db))
      else handleDelete read st db = (st, db)
  end.
Proof.
  unfold handleDelete. destruct (deletingTransaction st) as [t | ]; [ | reflexivity ].
  destruct (String.eqb (deleteConfirmText st) (category t)); reflexivity.
Qed.
End HandlerFacts.

(** X12: [handleDelete] sends nothing, and changes neither the page nor the
    database, unless a record awaits confirmation and the text typed is
    that record's category, byte for byte.  When it is, and SQLite reads
    the key written into the route as that key, the database loses exactly
    the records with the key, the page shows the new listing, in which the
    key no longer occurs, and the dialog is closed with its text cleared. *)
Theorem X12_handleDelete (read : string -> option Z) (st : AppState)
    (db : Database) :
  (forall t, deletingTransaction st = Some t ->
             read (number_to_string (id t)) = Some (id t)) ->
  match deletingTransaction st with
  | None => handleDelete read st db = (st, db)
  | Some t =>
      if String.eqb (deleteConfirmText st) (category t)
      then
        exists st' db',
          handleDelete read st db = (st', db') /\
          transactions db'
          = filter (fun r => negb (id r =? id t)) (transactions db) /\
          sqlite_sequence db' = sqlite_sequence db /\
          app_transactions st' = get_transactions db' /\
          app_stats st' = get_stats db' /\
          (forall r, In r (app_transactions st') -> id r <> id t) /\
          deletingTransaction st' = None /\
          deleteConfirmText st' = EmptyString
      else handleDelete read st db = (st, db)
  end.
Proof.
  intros Hread. pose proof (handleDelete_cases read st db) as H.
  destruct (deletingTransaction st) as [t | ]; [ | exact H ].
  destruct (String.eqb (deleteConfirmText st) (category t)); [ | exact H ].
  rewrite H, delete_transaction_eq, (Hread t eq_refl). simpl.
  do 2 eexists. split; [ reflexivity | ]. simpl.
  repeat split.
  intros r Hr.
  apply (Permutation_in _ (Permutation_sym (order_by_perm comes_first _))) in Hr.
  apply filter_In in Hr. destruct Hr as [_ Hr].
  now apply negb_true_iff, Z.eqb_neq in Hr.
Qed.

Lemma X12_handleDelete_witness :
  exists st' db',
    handleDelete decimal_integer
      (set_deleting (fetchData two_records (initial_state "2024-01-05"))
         (Some (tx 1 50 "expense" "food" "2024-01-01" noon)) "food")
      two_records
    = (st', db') /\
    transactions db'
    = filter (fun r => negb (id r =? 1)) (transactions two_records) /\
    sqlite_sequence db' = sqlite_sequence two_records /\
    app_transactions st' = get_transactions db' /\
    app_stats st' = get_stats db' /\
    (forall r, In r (app_transactions st') -> id r <> 1) /\
    deletingTransaction st' = None /\
    deleteConfirmText st' = EmptyString.
Proof.
  apply (X12_handleDelete decimal_integer
           (set_deleting (fetchData two_records (initial_state "2024-01-05"))
              (Some (tx 1 50 "expense" "food" "2024-01-01" noon)) "food")
           two_records).
  intros t [= <-]. reflexivity.
Defined.

(** X13: [handleSubmit] either changes nothing, in the page and in the
    database, or it has stored exactly one new record: its amount is the
    number of the amount field, which is then neither empty nor zero, its
    type, category, description and date are the form's, its key exceeds
    every key in the table; the dialog is then closed, the form reset, and
    the page shows the new listing and totals. *)
Theorem X13_handleSubmit (Number : string -> option Q) (now today : string)
    (st : AppState) (db : Database) :
  handleSubmit Number now today st db = (st, db) \/
  exists x r,
    form_amount (formData st) <> EmptyString /\
    Number (form_amount (formData st)) = Some x /\ ~ (x == 0)%Q /\
    amount r = x /\ type r = type_name (form_type (formData st)) /\
    category r = form_category (formData st) /\
    description r = Some (form_description (formData st)) /\
    date r = form_date (formData st) /\ created_at r = now /\
    (forall r', In r' (transactions db) -> id r' < id r) /\
    handleSubmit Number now today st db
    = ({| app_transactions :=
            get_transactions {| transactions := transactions db ++ [r];
                                sqlite_sequence := id r |};
          app_stats :=
            get_stats {| transactions := transactions db ++ [r];
                         sqlite_sequence := id r |};
          isAdding := false;
          deletingTransaction := deletingTransaction st;
          deleteConfirmText := deleteConfirmText st;
          formData := blank_form today |},
       {| transactions := transactions db ++ [r]; sqlite_sequence := id r |}).
Proof. exact (handleSubmit_cases Number now today st db). Qed.

(** ** Sessions *)

Lemma first_category (t : TransactionType) :
  In (hd EmptyString (CATEGORIES t)) (CATEGORIES t).
Proof. destruct t; left; reflexivity. Qed.

Lemma vocabulary_not_inherited (t : TransactionType) (c : string) :
  In c (CATEGORIES t) -> inherited c = false.
Proof.
  destruct t; simpl; intros H;
    repeat (destruct H as [<- | H]; [ reflexivity | ]); destruct H.
Qed.

Section SessionFacts.
Variable Number : string -> option Q.
Variable read : string -> option Z.

Lemma handle_in_step (e : Event) (st : AppState) (db : Database) :
  in_step st db ->
  in_step (fst (handle Number read e st db)) (snd (handle Number read e st db)).
Proof.
  intros (Hl & Hs & Hd & Hc).
  destruct e; simpl; try (repeat split; assumption).
  - repeat split; try assumption. apply first_category.
  - destruct (nth_error (CATEGORIES (form_type (formData st))) option_index)
      as [c | ] eqn:E; simpl; repeat split; try assumption.
    now apply nth_error_In in E.
  - destruct (isAdding st); [ | repeat split; assumption ].
    destruct (handleSubmit_cases Number now today st db)
      as [E | (x & r & _ & _ & _ & _ & _ & _ & _ & _ & _ & _ & E)]; rewrite E; simpl.
    + repeat split; assumption.
    + repeat split.
      * intros t Ht. apply in_or_app. left. now apply Hd.
      * left. reflexivity.
  - destruct (nth_error (app_transactions st) row) as [t | ] eqn:E; simpl;
      repeat split; try assumption.
    intros t' [= <-]. apply nth_error_In in E. rewrite Hl in E.
    exact (Permutation_in _ (Permutation_sym (get_transactions_perm db)) E).
  - repeat split; try assumption. discriminate.
  - pose proof (handleDelete_cases read st db) as H.
    destruct (deletingTransaction st) as [t | ] eqn:Et.
    + destruct (String.eqb (deleteConfirmText st) (category t)); rewrite H; simpl.
      * repeat split; try assumption. discriminate.
      * repeat split; try assumption. now rewrite Et.
    + rewrite H. simpl. repeat split; try assumption. now rewrite Et.
Qed.

Lemma handle_from_the_form (e : Event) (st : AppState) (db : Database) :
  in_step st db ->
  Forall from_the_form (transactions db) ->
  Forall from_the_form (transactions (snd (handle Number read e st db))).
Proof.
  intros (_ & _ & _ & Hc) Hf.
  destruct e; simpl; try assumption.
  - now destruct (nth_error (CATEGORIES (form_type (formData st))) option_index).
  - destruct (isAdding st); [ | assumption ].
    destruct (handleSubmit_cases Number now today st db)
      as [E | (x & r & _ & _ & _ & _ & Ht & Hcat & _ & _ & _ & _ & E)];
      rewrite E; simpl; [ assumption | ].
    apply Forall_app. split; [ assumption | ].
    constructor; [ | constructor ].
    exists (form_type (formData st)). split; [ exact Ht | now rewrite Hcat ].
  - now destruct (nth_error (app_transactions st) row).
  - pose proof (handleDelete_cases read st db) as H.
    destruct (deletingTransaction st) as [t | ]; [ | now rewrite H ].
    destruct (String.eqb (deleteConfirmText st) (category t)); rewrite H;
      [ | assumption ].
    rewrite delete_transaction_eq. simpl.
    apply Forall_forall. intros r Hr. apply filter_In in Hr.
    rewrite Forall_forall in Hf. now apply Hf.
Qed.

Lemma run_invariant (events : list Event) (s : AppState * Database) :
  in_step (fst s) (snd s) ->
  in_step (fst (fold_left (fun s e => handle Number read e (fst s) (snd s)) events s))
          (snd (fold_left (fun s e => handle Number read e (fst s) (snd s)) events s))
  /\
  (Forall from_the_form (transactions (snd s)) ->
   Forall from_the_form
     (transactions
        (snd (fold_left (fun s e => handle Number read e (fst s) (snd s)) events s)))).
Proof.
  revert s. induction events as [ | e events IH]; intros s H0; simpl.
  - auto.
  - destruct (IH (handle Number read e (fst s) (snd s))
                (handle_in_step e (fst s) (snd s) H0)) as [H1 H2].
    split; [ exact H1 | ].
    intros Hf. apply H2. now apply handle_from_the_form.
Qed.

Lemma session_invariant (today : string) (db0 : Database) (events : list Event) :
  in_step (fst (session Number read today db0 events))
          (snd (session Number read today db0 events)) /\
  (Forall from_the_form (transactions db0) ->
   Forall from_the_form
     (transactions (snd (session Number read today db0 events)))).
Proof.
  apply (run_invariant events (fetchData db0 (initial_state today), db0)).
  repeat split; try discriminate. left. reflexivity.
Qed.
End SessionFacts.

(** X14: throughout a session, whatever the user does, the page shows the
    server's current listing and totals, a record awaiting confirmation of
    its deletion is still in the table, and the category in the form is one
    of the categories offered for the form's type. *)
Theorem X14_session_in_step (Number : string -> option Q)
    (read : string -> option Z) (today : string) (db0 : Database)
    (events : list Event) :
  in_step (fst (session Number read today db0 events))
          (snd (session Number read today db0 events)).
Proof. apply session_invariant. Qed.

(** X15: a session on a table whose records all carry a category offered
    for their type leaves such a table: what is entered through the form
    has type [income] or [expense] and a category of the fixed vocabulary
    of that type, so no stored category names a property of
    [Object.prototype]. *)
Theorem X15_session_keeps_vocabulary (Number : string -> option Q)
    (read : string -> option Z) (today : string) (db0 : Database)
    (events : list Event) :
  Forall from_the_form (transactions db0) ->
  Forall (fun r => from_the_form r /\ inherited (category r) = false)
    (transactions (snd (session Number read today db0 events))).
Proof.
  intros H0.
  destruct (session_invariant Number read today db0 events) as [_ H].
  specialize (H H0). eapply Forall_impl; [ | exact H ].
  intros r Hr. split; [ exact Hr | ].
  destruct Hr as (t & _ & Hc). now apply vocabulary_not_inherited with t.
Qed.

Lemma X15_session_keeps_vocabulary_witness :
  Forall (fun r => from_the_form r /\ inherited (category r) = false)
    (transactions
       (snd (session decimal_number decimal_integer "2024-01-01" empty_db
               [OpenAdd; ChangeAmount "50"; Submit noon "2024-01-01"]))).
Proof.
  apply (X15_session_keeps_vocabulary decimal_number decimal_integer
           "2024-01-01" empty_db
           [OpenAdd; ChangeAmount "50"; Submit noon "2024-01-01"]).
  constructor.
Defined.

(** A short session, computed: one expense is entered; a wrong word in the
    confirmation field deletes nothing, the category does. *)
Example session_enter_and_delete :
  map id
    (transactions
       (snd (session decimal_number decimal_integer "2024-01-01" empty_db
               [OpenAdd; ChangeAmount "50"; Submit noon "2024-01-01";
                AskDelete 0; ChangeConfirmText "food"; ConfirmDelete])))
  = [1] /\
  transactions
    (snd (session decimal_number decimal_integer "2024-01-01" empty_db
            [OpenAdd; ChangeAmount "50"; Submit noon "2024-01-01";
             AskDelete 0; ChangeConfirmText "餐饮"; ConfirmDelete]))
  = [].
Proof. split; reflexivity. Qed.

Lemma remove_by_key (rows : list Transaction) (t : Transaction) :
  NoDup (map id rows) -> In t rows ->
  Permutation rows (t :: filter (fun r => negb (id r =? id t)) rows).
Proof.
  induction rows as [ | a rows IH]; simpl; intros Hnd Hin; [ destruct Hin | ].
  inversion Hnd as [ | ? ? Hna Hnd']; subst.
  destruct Hin as [-> | Hin].
  - rewrite Z.eqb_refl. simpl. constructor.
    rewrite filter_all; [ reflexivity | ].
    intros r Hr. apply negb_true_iff, Z.eqb_neq. intros E.
    apply Hna. rewrite <- E. now apply in_map.
  - assert (Hne : id a <> id t).
    { intros E. apply Hna. rewrite E. now apply in_map. }
    apply Z.eqb_neq in Hne. rewrite Hne. simpl.
    rewrite perm_swap. constructor. now apply IH.
Qed.

(** X16: in a reachable state, when the record awaiting confirmation is in
    the table, the text typed is its category and SQLite reads the key
    written into the route as that key, [handleDelete] removes that record
    and no other. *)
Theorem X16_confirmed_delete_removes_one (read : string -> option Z)
    (st : AppState) (db : Database) (t : Transaction) :
  reachable db ->
  deletingTransaction st = Some t ->
  In t (transactions db) ->
  deleteConfirmText st = category t ->
  read (number_to_string (id t)) = Some (id t) ->
  Permutation (transactions db)
    (t :: transactions (snd (handleDelete read st db))).
Proof.
  intros Hr Ht Hin Hc Hread.
  pose proof (handleDelete_cases read st db) as H. rewrite Ht, Hc in H.
  rewrite String.eqb_refl in H. rewrite H. cbn [snd].
  rewrite delete_transaction_eq, Hread. simpl.
  apply remove_by_key; [ | exact Hin ].
  apply keys_sorted_NoDup. apply (reachable_invariant db Hr).
Qed.

Lemma X16_confirmed_delete_removes_one_witness :
  Permutation (transactions two_records)
    (tx 1 50 "expense" "food" "2024-01-01" noon
     :: transactions
          (snd (handleDelete decimal_integer
                  (set_deleting (fetchData two_records (initial_state "2024-01-05"))
                     (Some (tx 1 50 "expense" "food" "2024-01-01" noon)) "food")
                  two_records))).
Proof.
  apply (X16_confirmed_delete_removes_one decimal_integer
           (set_deleting (fetchData two_records (initial_state "2024-01-05"))
              (Some (tx 1 50 "expense" "food" "2024-01-01" noon)) "food")
           two_records (tx 1 50 "expense" "food" "2024-01-01" noon)).
  - exact two_records_reachable.
  - reflexivity.
  - left. reflexivity.
  - reflexivity.
  - reflexivity.
Defined.

(** ** The records quoted to the adviser *)

Lemma StronglySorted_split {A : Type} (R : A -> A -> Prop) (n : nat)
    (l : list A) :
  StronglySorted R l ->
  forall a b, In a (firstn n l) -> In b (skipn n l) -> R a b.
Proof.
  intros Hs. revert n. induction Hs as [ | x l Hs IH Hx]; intros n a b Ha Hb.
  - destruct n; destruct Ha.
  - destruct n as [ | n]; simpl in *; [ destruct Ha | ].
    destruct Ha as [<- | Ha].
    + rewrite Forall_forall in Hx. apply Hx.
      rewrite <- (firstn_skipn n l). apply in_or_app. now right.
    + now apply IH with n.
Qed.

(** X17: the records quoted in the prompt are the first five of the
    listing, or all of it when it is shorter; every record left out is one
    the listing puts after each of them (an earlier date, or the same date
    and no later [created_at]). *)
Theorem X17_recent_are_the_latest (db : Database) :
  List.length (recent (get_transactions db))
  = Nat.min 5 (List.length (transactions db)) /\
  get_transactions db
  = recent (get_transactions db) ++ skipn 5 (get_transactions db) /\
  forall a b, In a (recent (get_transactions db)) ->
              In b (skipn 5 (get_transactions db)) -> listed_before a b.
Proof.
  unfold recent. split; [ | split ].
  - rewrite length_firstn.
    now rewrite (Permutation_length (get_transactions_perm db)).
  - symmetry. apply firstn_skipn.
  - apply StronglySorted_split.
    apply StronglySorted_weaken with (R := holds comes_first).
    + intros x y _ _. apply comes_first_listed.
    + apply order_by_sorted with (P := fun _ => True).
      * intros x y _ _. apply comes_first_total.
      * intros x y z _ _ _. apply comes_first_trans.
      * apply Forall_forall. auto.
Qed.

(** * Doubles

    The amounts are doubles in the code.  Sums are stated above in the order
    in which the code takes them because, in binary64, the order matters:
    the breakdown by category adds the amounts of a category in the order
    of the listing, latest date first, where [SUM] adds them along the
    table.  For expenses of 0.1, 0.2 and 0.7 entered on three successive
    days the first way gives 0.9999999999999999, the second 1.  And a sum
    of finite amounts can leave the range: the result is infinite, which
    JSON sends as [null]. *)
Module Binary64.
Import Floats.

Example sums_depend_on_the_order :
  let a := 0x1.999999999999ap-4%float in   (* 0.1 *)
  let b := 0x1.999999999999ap-3%float in   (* 0.2 *)
  let c := 0x1.6666666666666p-1%float in   (* 0.7 *)
  PrimFloat.eqb (((0 + a) + b) + c) 1 = true /\
  PrimFloat.eqb (((0 + c) + b) + a) 0x1.fffffffffffffp-1 = true /\
  PrimFloat.ltb (((0 + c) + b) + a) (((0 + a) + b) + c) = true.
Proof. repeat split. Qed.

Example sums_can_overflow :
  PrimFloat.is_infinity (0x1p1023 + 0x1p1023) = true.
Proof. reflexivity. Qed.
End Binary64.
